(** * Lite: fragment controllers rendered into marked elements of a Lit host

    A shallow embedding of [src/lite-element.ts]: the [ReactiveProperty]
    cell, the [LiteElement] controller base class (constructor with method
    auto-binding, lifecycle hooks, installation of reactive accessors), the
    [reactive] accessor pair, and the [lite] registry with its
    discovery-and-mount pass [updateContent].

    JavaScript objects are kept as the source has them: a controller is a
    bag of named properties (data or accessor) with a prototype chain, the
    backing slot of a reactive field lives on the same object under the key
    ["__" + name], [ReactiveProperty] objects are mutable cells in a store,
    and the two module-level maps are part of the state.

    Two things are outside the source.  The Lit host: its [requestUpdate]
    and [render] are recorded in logs, and its [addController] records the
    controller and, when the host is connected and has rendered, calls
    [controller.hostConnected?.()] at once, as Lit does; the state says
    which hosts are in that situation.  The controller subclasses: a class
    is given by its superclass, the keys of its static [properties], its
    methods and its field initialisers, and a method returns a template
    whose holes read fields of [this].  The source is TypeScript compiled
    with class fields as assignments in the constructor (the setting Lit
    asks for), so a field initialiser that meets an accessor runs its
    setter.

    Property access nests (an accessor reads and writes other properties of
    its object), so it takes a [fuel] argument; the theorems give the fuel
    that suffices. *)

From stdpp Require Import gmap strings list fin_maps.

Open Scope string_scope.
Open Scope list_scope.

(** ** Values *)

(** A method supplied by a controller subclass returns a template; its
    holes read fields of [this].  [TField k] is the expression [this.k]. *)
Inductive tpart : Type :=
| TText (s : string)
| TField (k : string).

(** Function objects.  [ClassCtor] is a class constructor with the keys of
    its own static [properties] object (if it declares one) and the
    constructor it extends; [Bound f r] is [f.bind(r)]. *)
#[warnings="-register-all"]
Inductive func : Type :=
| Native (name : string)
| UserFn (name : string) (body : list tpart)
| ClassCtor (name : string) (properties : option (list string)) (super : option func)
| Bound (target : func) (this : nat).

Inductive value : Type :=
| VUndefined
| VNull
| VBool (b : bool)
| VNum (n : Z)
| VStr (s : string)
| VHost (h : nat)      (* a LitElement host *)
| VElem (e : nat)      (* a DOM element *)
| VCell (l : nat)      (* a ReactiveProperty object *)
| VFun (f : func).

(** [typeof v === 'function'] *)
Definition is_function (v : value) : bool :=
  match v with VFun _ => true | _ => false end.

(** JavaScript truthiness, as used by [if (x)] and [!x]. *)
Definition truthy (v : value) : bool :=
  match v with
  | VUndefined | VNull => false
  | VBool b => b
  | VNum n => negb (n =? 0)%Z
  | VStr s => negb (String.eqb s "")
  | VHost _ | VElem _ | VCell _ | VFun _ => true
  end.

(** The [this] a function body runs with when it is called with call-site
    receiver [site] ([None] for a bare call): a bound function ignores the
    call site, and binding a bound function again does not change it. *)
Fixpoint call_this (f : func) (site : option nat) : option nat :=
  match f with
  | Bound g r => call_this g (Some r)
  | _ => site
  end.

(** [f.properties] for a function object [f].  A bound function has no own
    [properties]; its prototype is the prototype of its target, that is,
    the constructor the target extends. *)
Fixpoint static_properties (skip_own : bool) (f : func) : option (list string) :=
  match f with
  | ClassCtor _ own super =>
      match (if skip_own then None else own) with
      | Some ps => Some ps
      | None => match super with
                | Some s => static_properties false s
                | None => None
                end
      end
  | Bound g _ => static_properties true g
  | Native _ | UserFn _ _ => None
  end.

(** ** Classes and prototypes *)

(** [LiteElement] is the abstract base class of the source; [Extends] is a
    controller class: its name, the class it extends, the keys of its
    static [properties], the own properties of its prototype (its methods)
    and its instance field initialisers. *)
Inductive class : Type :=
| LiteElement
| Extends (name : string) (super : class) (properties : option (list string))
          (methods : list (string * value)) (fields : list (string * value)).

Fixpoint ctor_of (c : class) : func :=
  match c with
  | LiteElement => ClassCtor "LiteElement" None None
  | Extends n s ps _ _ => ClassCtor n ps (Some (ctor_of s))
  end.

(** Own properties of [c.prototype], in creation order.  [render] is
    abstract in [LiteElement], so its prototype has none. *)
Definition proto_own (c : class) : list (string * value) :=
  match c with
  | LiteElement =>
      [ ("constructor", VFun (ctor_of LiteElement));
        ("hostConnected", VFun (Native "hostConnected"));
        ("hostUpdate", VFun (Native "hostUpdate"));
        ("initReactiveProperties", VFun (Native "initReactiveProperties"));
        ("update", VFun (Native "update")) ]
  | Extends _ _ _ ms _ => ("constructor", VFun (ctor_of c)) :: ms
  end.

Fixpoint assoc {A : Type} (k : string) (l : list (string * A)) : option A :=
  match l with
  | [] => None
  | (k', v) :: l' => if String.eqb k k' then Some v else assoc k l'
  end.

(** Property lookup along the prototype chain, starting at [c.prototype]. *)
Fixpoint proto_lookup (c : class) (k : string) : option value :=
  match assoc k (proto_own c) with
  | Some v => Some v
  | None => match c with
            | LiteElement => None
            | Extends _ s _ _ _ => proto_lookup s k
            end
  end.

(** Field initialisers run base class first, after [super()] returns. *)
Fixpoint field_initialisers (c : class) : list (string * value) :=
  match c with
  | LiteElement => []
  | Extends _ s _ _ fs => field_initialisers s ++ fs
  end.

(** ** State *)

(** An own property of a controller: a data property, or the accessor pair
    that [reactive] installs, which closes over [internalKey] and
    [originalValue]. *)
Inductive prop : Type :=
| Data (v : value)
| Accessor (internalKey : string) (originalValue : value).

Record object : Type := { o_class : class; o_props : gmap string prop }.

Record ReactiveProperty : Type := { rp_host : value; rp_value : value }.

(** An element returned by [querySelectorAll('[lite]')]: its identity,
    whether it is an [HTMLElement], and [getAttribute('lite')]. *)
Record element : Type := { el_id : nat; el_html : bool; el_lite : option string }.

Record world : Type := {
  objects : gmap nat object;              (* controller instances *)
  cells : gmap nat ReactiveProperty;      (* ReactiveProperty objects *)
  requests : list nat;                    (* host.requestUpdate(), oldest first *)
  controllers : list (nat * nat);         (* host.addController(c) *)
  commits : list (value * list value);    (* render(result, container) *)
  liteElementsMap : gmap string class;
  liteElementsInstancesMap : gmap nat nat;
  connected : gset nat                    (* hosts that are connected and have rendered *)
}.

Definition empty_world : world :=
  {| objects := ∅; cells := ∅; requests := []; controllers := []; commits := [];
     liteElementsMap := ∅; liteElementsInstancesMap := ∅; connected := ∅ |}.

Definition with_objects (f : gmap nat object -> gmap nat object) (w : world) : world :=
  {| objects := f (objects w); cells := cells w; requests := requests w;
     controllers := controllers w; commits := commits w;
     liteElementsMap := liteElementsMap w;
     liteElementsInstancesMap := liteElementsInstancesMap w;
     connected := connected w |}.

Definition with_cells (f : gmap nat ReactiveProperty -> gmap nat ReactiveProperty)
    (w : world) : world :=
  {| objects := objects w; cells := f (cells w); requests := requests w;
     controllers := controllers w; commits := commits w;
     liteElementsMap := liteElementsMap w;
     liteElementsInstancesMap := liteElementsInstancesMap w;
     connected := connected w |}.

Definition with_requests (f : list nat -> list nat) (w : world) : world :=
  {| objects := objects w; cells := cells w; requests := f (requests w);
     controllers := controllers w; commits := commits w;
     liteElementsMap := liteElementsMap w;
     liteElementsInstancesMap := liteElementsInstancesMap w;
     connected := connected w |}.

Definition with_controllers (f : list (nat * nat) -> list (nat * nat)) (w : world) : world :=
  {| objects := objects w; cells := cells w; requests := requests w;
     controllers := f (controllers w); commits := commits w;
     liteElementsMap := liteElementsMap w;
     liteElementsInstancesMap := liteElementsInstancesMap w;
     connected := connected w |}.

Definition with_commits (f : list (value * list value) -> list (value * list value))
    (w : world) : world :=
  {| objects := objects w; cells := cells w; requests := requests w;
     controllers := controllers w; commits := f (commits w);
     liteElementsMap := liteElementsMap w;
     liteElementsInstancesMap := liteElementsInstancesMap w;
     connected := connected w |}.

Definition with_registry (f : gmap string class -> gmap string class) (w : world) : world :=
  {| objects := objects w; cells := cells w; requests := requests w;
     controllers := controllers w; commits := commits w;
     liteElementsMap := f (liteElementsMap w);
     liteElementsInstancesMap := liteElementsInstancesMap w;
     connected := connected w |}.

Definition with_instances (f : gmap nat nat -> gmap nat nat) (w : world) : world :=
  {| objects := objects w; cells := cells w; requests := requests w;
     controllers := controllers w; commits := commits w;
     liteElementsMap := liteElementsMap w;
     liteElementsInstancesMap := f (liteElementsInstancesMap w);
     connected := connected w |}.

(** The state in which host [h] is connected and has rendered. *)
Definition connect (h : nat) (w : world) : world :=
  {| objects := objects w; cells := cells w; requests := requests w;
     controllers := controllers w; commits := commits w;
     liteElementsMap := liteElementsMap w;
     liteElementsInstancesMap := liteElementsInstancesMap w;
     connected := {[h]} ∪ connected w |}.

(** ** Computations: state plus exceptions *)

Inductive error : Type :=
| TypeError      (* a JavaScript TypeError *)
| OutOfFuel.     (* the call depth allowed to the model is exhausted *)

(** An exception keeps the state reached when it was thrown. *)
Inductive outcome (A : Type) : Type :=
| Ok (a : A) (w : world)
| Throw (e : error) (w : world).
Arguments Ok {A} a w.
Arguments Throw {A} e w.

Definition M (A : Type) : Type := world -> outcome A.

Definition ret {A} (a : A) : M A := fun w => Ok a w.
Definition throw {A} (e : error) : M A := fun w => Throw e w.
Definition bind {A B} (m : M A) (k : A -> M B) : M B :=
  fun w => match m w with
           | Ok a w' => k a w'
           | Throw e w' => Throw e w'
           end.
Definition modify (f : world -> world) : M unit := fun w => Ok tt (f w).

Notation "'do' x <- m ; k" := (bind m (fun x => k))
  (at level 10, x name, m at level 100, k at level 200).
Notation "m ;; k" := (bind m (fun _ => k))
  (at level 100, k at level 200, right associativity).

(** The state an outcome ends in. *)
Definition final {A} (o : outcome A) : world :=
  match o with Ok _ w => w | Throw _ w => w end.

(** ** ReactiveProperty *)

(** [new ReactiveProperty(host, value)] *)
Definition ReactiveProperty_new (h v : value) : M nat :=
  fun w => let l := fresh (dom (cells w)) in
           Ok l (with_cells <[l := {| rp_host := h; rp_value := v |}]> w).

(** [get() { return this.value; }] *)
Definition ReactiveProperty_get (l : nat) : M value :=
  fun w => match cells w !! l with
           | Some c => Ok (rp_value c) w
           | None => Throw TypeError w
           end.

(** [this.host.requestUpdate()] for whatever value [this.host] holds. *)
Definition requestUpdate (h : value) : M unit :=
  match h with
  | VHost n => modify (with_requests (fun rs => rs ++ [n]))
  | _ => throw TypeError
  end.

(** [set(newValue) { this.value = newValue; this.host.requestUpdate(); }] *)
Definition ReactiveProperty_set (l : nat) (newValue : value) : M unit :=
  fun w => match cells w !! l with
           | Some c =>
               (modify (with_cells <[l := {| rp_host := rp_host c; rp_value := newValue |}]>) ;;
                requestUpdate (rp_host c)) w
           | None => Throw TypeError w
           end.

(** ** Property access and the accessors installed by [reactive] *)

Definition internalKey (propertyKey : string) : string := "__" +:+ propertyKey.

Section accessors.
(** [this[k]] and [this[k] = v], as the accessor bodies use them. *)
Variable get : nat -> string -> M value.
Variable set : nat -> string -> value -> M unit.

(** The [getter] closure of [reactive]. *)
Definition getter (ik : string) (originalValue : value) (this : nat) : M value :=
  do cur <- get this ik;
  (match cur with
   | VUndefined =>
       do h <- get this "host";
       do l <- ReactiveProperty_new h originalValue;
       set this ik (VCell l)
   | _ => ret tt
   end) ;;
  do slot <- get this ik;
  match slot with
  | VUndefined | VNull => ret VUndefined
  | VCell l => ReactiveProperty_get l
  | _ => throw TypeError
  end.

(** The [setter] closure of [reactive]. *)
Definition setter (ik : string) (this : nat) (v : value) : M unit :=
  do cur <- get this ik;
  match cur with
  | VUndefined =>
      do h <- get this "host";
      do l <- ReactiveProperty_new h v;
      set this ik (VCell l)
  | _ =>
      do slot <- get this ik;
      match slot with
      | VCell l => ReactiveProperty_set l v
      | _ => throw TypeError
      end
  end.
End accessors.

Inductive access : Type := Read | Write (v : value).

(** Replace or create the own property [k] of object [r]. *)
Definition define (r : nat) (k : string) (p : prop) (w : world) : world :=
  with_objects
    (alter (fun o => {| o_class := o_class o; o_props := <[k := p]> (o_props o) |}) r) w.

(** [this[k]] ([Read]) and [this[k] = v] ([Write v]) on a controller.  A
    read falls back to the prototype chain; a write to a property that is
    not an own accessor creates or overwrites an own data property.  An
    accessor property runs its getter or setter, which access [this] again;
    [fuel] bounds that nesting. *)
Fixpoint js_access (fuel : nat) (this : nat) (k : string) (a : access) : M value :=
  match fuel with
  | 0 => throw OutOfFuel
  | S fuel' =>
      fun w =>
        match objects w !! this with
        | None => Throw TypeError w
        | Some o =>
            match o_props o !! k, a with
            | Some (Data v), Read => Ok v w
            | None, Read => Ok (default VUndefined (proto_lookup (o_class o) k)) w
            | Some (Accessor ik orig), Read =>
                getter (fun t x => js_access fuel' t x Read)
                       (fun t x v => js_access fuel' t x (Write v) ;; ret tt)
                       ik orig this w
            | Some (Accessor ik _), Write v =>
                (setter (fun t x => js_access fuel' t x Read)
                        (fun t x v => js_access fuel' t x (Write v) ;; ret tt)
                        ik this v ;; ret VUndefined) w
            | _, Write v => Ok VUndefined (define this k (Data v) w)
            end
        end
  end.

Definition js_get (fuel : nat) (this : nat) (k : string) : M value :=
  js_access fuel this k Read.

Definition js_set (fuel : nat) (this : nat) (k : string) (v : value) : M unit :=
  js_access fuel this k (Write v) ;; ret tt.

(** [reactive(target, propertyKey)] *)
Definition reactive (fuel : nat) (target : nat) (propertyKey : string) : M unit :=
  do originalValue <- js_get fuel target propertyKey;
  modify (define target propertyKey (Accessor (internalKey propertyKey) originalValue)).

(** ** LiteElement *)

Definition gets {A} (f : world -> A) : M A := fun w => Ok (f w) w.

Fixpoint forEach {A} (f : A -> M unit) (l : list A) : M unit :=
  match l with
  | [] => ret tt
  | x :: l' => f x ;; forEach f l'
  end.

(** [Object.getPrototypeOf(this)], as the class whose prototype it is. *)
Definition getPrototypeOf (this : nat) : M class :=
  fun w => match objects w !! this with
           | Some o => Ok (o_class o) w
           | None => Throw TypeError w
           end.

(** [Object.getOwnPropertyNames(c.prototype)] *)
Definition getOwnPropertyNames (c : class) : list string := map fst (proto_own c).

(** [names.filter(prop => typeof this[prop] === 'function')] *)
Fixpoint filter_functions (fuel : nat) (this : nat) (names : list string) : M (list string) :=
  match names with
  | [] => ret []
  | p :: ps =>
      do v <- js_get fuel this p;
      do rest <- filter_functions fuel this ps;
      ret (if is_function v then p :: rest else rest)
  end.

(** [this[methodName] = this[methodName].bind(this)] *)
Definition bind_method (fuel : nat) (this : nat) (methodName : string) : M unit :=
  do f <- js_get fuel this methodName;
  match f with
  | VFun g => js_set fuel this methodName (VFun (Bound g this))
  | _ => throw TypeError
  end.

(** [initReactiveProperties()] *)
Definition initReactiveProperties (fuel : nat) (this : nat) : M unit :=
  do flag <- js_get fuel this "reactivePropertiesInitialized";
  if negb (truthy flag) then
    js_set fuel this "reactivePropertiesInitialized" (VBool true) ;;
    do ctor <- js_get fuel this "constructor";
    match ctor with
    | VUndefined | VNull => throw TypeError
    | VFun f =>
        match static_properties false f with
        | Some properties => forEach (reactive fuel this) properties
        | None => ret tt
        end
    | _ => ret tt
    end
  else ret tt.

(** The template a subclass method returns when run on [this]. *)
Fixpoint eval_template (fuel : nat) (this : nat) (body : list tpart) : M (list value) :=
  match body with
  | [] => ret []
  | TText s :: body' =>
      do rest <- eval_template fuel this body';
      ret (VStr s :: rest)
  | TField k :: body' =>
      do v <- js_get fuel this k;
      do rest <- eval_template fuel this body';
      ret (v :: rest)
  end.

(** Calling the function [f] as [this.render()].  A bound function runs on
    the object it was bound to.  A class constructor cannot be called
    without [new].  The inherited hooks are not render methods: used as one
    they re-enter [render] without end, which is reported as [OutOfFuel]. *)
Fixpoint call_method (fuel : nat) (f : func) (this : nat) : M (list value) :=
  match f with
  | Bound g r => call_method fuel g r
  | UserFn _ body => eval_template fuel this body
  | ClassCtor _ _ _ => throw TypeError
  | Native _ => throw OutOfFuel
  end.

(** [this.render()] *)
Definition call_render (fuel : nat) (this : nat) : M (list value) :=
  do f <- js_get fuel this "render";
  match f with
  | VFun g => call_method fuel g this
  | _ => throw TypeError
  end.

(** Lit's [render(result, container)] *)
Definition lit_render (result : list value) (container : value) : M unit :=
  modify (with_commits (fun cs => cs ++ [(container, result)])).

(** [update(element) { render(this.render(), element); }] *)
Definition update (fuel : nat) (this : nat) (element : value) : M unit :=
  do result <- call_render fuel this;
  lit_render result element.

Section hooks.
(** [this[k]] and a call of a function value with receiver [this] and one
    argument, as the hook bodies use them. *)
Variable get : nat -> string -> M value.
Variable call : value -> nat -> value -> M unit.

(** The body of [hostConnected] and of [hostUpdate]:
    [this.initReactiveProperties(); this.update(this.element);].  Both
    methods are looked up on [this]; the callee is evaluated before the
    argument, and whether it is callable is checked after it. *)
Definition hook (this : nat) : M unit :=
  do init <- get this "initReactiveProperties";
  call init this VUndefined ;;
  do upd <- get this "update";
  do element <- get this "element";
  call upd this element.
End hooks.

(** Calling the function [f] with receiver [this] and argument [arg], for
    its effect.  A bound function runs on the object it was bound to; a
    method of a subclass evaluates its template; the four methods of
    [LiteElement] run their bodies, the hooks calling their two methods
    through [this] again.  No other [Native] function is ever created; a
    call of one is reported as a [TypeError], and so is a call of a class
    constructor without [new].  [fuel] bounds the nesting of calls. *)
Fixpoint invoke (fuel : nat) (f : func) (this : nat) (arg : value) : M unit :=
  match fuel with
  | 0 => throw OutOfFuel
  | S fuel' =>
      match f with
      | Bound g r => invoke fuel' g r arg
      | UserFn _ body => eval_template fuel this body ;; ret tt
      | ClassCtor _ _ _ => throw TypeError
      | Native name =>
          if String.eqb name "hostConnected" || String.eqb name "hostUpdate" then
            hook (js_get fuel)
                 (fun v t a => match v with
                               | VFun g => invoke fuel' g t a
                               | _ => throw TypeError
                               end)
                 this
          else if String.eqb name "initReactiveProperties" then
            initReactiveProperties fuel this
          else if String.eqb name "update" then update fuel this arg
          else throw TypeError
      end
  end.

(** [v.call(this, arg)] for whatever value [v] is. *)
Definition call (fuel : nat) (v : value) (this : nat) (arg : value) : M unit :=
  match v with
  | VFun g => invoke fuel g this arg
  | _ => throw TypeError
  end.


Definition hostUpdate (fuel : nat) (this : nat) : M unit :=
  hook (js_get fuel) (call fuel) this.

(** Lit's [host.addController(controller)]: the controller joins the
    controller set of the host, and a host that is connected and has
    rendered calls [controller.hostConnected?.()] before it returns. *)
Definition addController (fuel : nat) (host controller : nat) : M unit :=
  modify (with_controllers (fun cs => cs ++ [(host, controller)])) ;;
  do isConnected <- gets (fun w => bool_decide (host ∈ connected w));
  if isConnected then
    do f <- js_get fuel controller "hostConnected";
    match f with
    | VUndefined | VNull => ret tt
    | _ => call fuel f controller VUndefined
    end
  else ret tt.

(** The constructor of [LiteElement], run on the freshly allocated [this].
    The field initialiser of [reactivePropertiesInitialized] runs first. *)
Definition LiteElement_constructor (fuel : nat) (this host element : nat) : M unit :=
  modify (define this "reactivePropertiesInitialized" (Data (VBool false))) ;;
  js_set fuel this "host" (VHost host) ;;
  js_set fuel this "element" (VElem element) ;;
  addController fuel host this ;;
  do proto <- getPrototypeOf this;
  do methodNames <- filter_functions fuel this (getOwnPropertyNames proto);
  forEach (bind_method fuel this) methodNames.

(** [new C(host, element)] for a controller class [C]: allocate the object
    with prototype [C.prototype], run the [LiteElement] constructor, then
    the field initialisers of the subclasses, which are assignments. *)
Definition new (fuel : nat) (C : class) (host element : nat) : M nat :=
  fun w =>
    let this := fresh (dom (objects w)) in
    (modify (with_objects <[this := {| o_class := C; o_props := ∅ |}]>) ;;
     LiteElement_constructor fuel this host element ;;
     forEach (fun kv => js_set fuel this (fst kv) (snd kv)) (field_initialisers C) ;;
     ret this) w.

(** ** The registry and the discovery pass *)

(** [new LiteElementHost(liteElement, host)]: the constructor stores the
    controller and calls [updateContent(host)]. *)
Definition LiteElementHost_new (fuel : nat) (liteElement : nat) (host : nat) : M unit :=
  do result <- call_render fuel liteElement;
  lit_render result (VElem host).

(** The registration loop of [lite(Base, elements)]. *)
Definition lite (elements : list (string * class)) : M unit :=
  forEach (fun nc => modify (with_registry <[fst nc := snd nc]>)) elements.

(** Lines 118-122 of the source: look the element up in
    [liteElementsInstancesMap], construct and record on a miss. *)
Definition instance_for (fuel : nat) (this : nat) (C : class) (liteElementHost : nat) : M nat :=
  do found <- gets (fun w => liteElementsInstancesMap w !! liteElementHost);
  match found with
  | Some liteElementInstance => ret liteElementInstance
  | None =>
      do liteElementInstance <- new fuel C this liteElementHost;
      modify (with_instances <[liteElementHost := liteElementInstance]>) ;;
      ret liteElementInstance
  end.

(** The body of the [forEach] in [updateContent], for one element. *)
Definition mount (fuel : nat) (this : nat) (liteElementHost : element) : M unit :=
  if el_html liteElementHost then
    match el_lite liteElementHost with
    | Some liteElementName =>
        if truthy (VStr liteElementName) then
          do LiteElementConstructor <- gets (fun w => liteElementsMap w !! liteElementName);
          match LiteElementConstructor with
          | Some C =>
              do liteElementInstance <- instance_for fuel this C (el_id liteElementHost);
              LiteElementHost_new fuel liteElementInstance (el_id liteElementHost)
          | None => ret tt
          end
        else ret tt
    | None => ret tt
    end
  else ret tt.

(** [updateContent()] of the host [this]; [shadowRoot] is the result of
    [this.shadowRoot?.querySelectorAll('[lite]')], [None] without a shadow
    root. *)
Definition updateContent (fuel : nat) (this : nat) (shadowRoot : option (list element)) : M unit :=
  match shadowRoot with
  | Some liteElements =>
      if negb (length liteElements =? 0)%nat then forEach (mount fuel this) liteElements
      else ret tt
  | None => ret tt
  end.

(** ** A small example: a counter *)

(** [CounterBase] declares the reactive field [count] in its static
    [properties] and has a method [reset]; [Counter] extends it with the
    field initialiser, an [increment] method and [render]. *)
Definition CounterBase : class :=
  Extends "CounterBase" LiteElement (Some ["count"])
    [ ("reset", VFun (UserFn "reset" [TField "count"])) ] [].

Definition Counter : class :=
  Extends "Counter" CounterBase None
    [ ("increment", VFun (UserFn "increment" []));
      ("render", VFun (UserFn "render" [TText "count="; TField "count"])) ]
    [ ("count", VNum 0) ].

Definition marker (id : nat) (name : string) : element :=
  {| el_id := id; el_html := true; el_lite := Some name |}.

(** Host 7 has committed one [<div lite="counter">], element 1; the pass
    created controller 0. *)
Definition mounted : world :=
  final ((lite [("counter", Counter)] ;;
          updateContent 3 7 (Some [marker 1 "counter"])) empty_world).

(** The same after the reactive fields of controller 0 were installed. *)
Definition initialised : world := final (initReactiveProperties 3 0 mounted).

(** ** Further example states and classes *)

(** Controller 0 of [mounted] after a host update: the hook installed the
    reactive fields and [render] read [count], which created its slot. *)
Definition rendered : world := final (hostUpdate 3 0 mounted).

(** The registry after [lite(Base, [["counter", Counter]])]. *)
Definition registered : world := final (lite [("counter", Counter)] empty_world).


(** A second controller class, to register over [Counter]. *)
Definition Clock : class :=
  Extends "Clock" LiteElement None
    [ ("render", VFun (UserFn "render" [TText "ticks="; TField "ticks"])) ]
    [ ("ticks", VNum 0) ].

(** The counter of [initialised] after one discovery pass of its host. *)
Definition rendered_once : world :=
  final (updateContent 3 7 (Some [marker 1 "counter"]) initialised).

(** A controller class that declares its reactive field in its own static
    [properties]. *)
Definition Ticker : class :=
  Extends "Ticker" LiteElement (Some ["ticks"])
    [ ("render", VFun (UserFn "render" [TText "ticks="; TField "ticks"])) ]
    [ ("ticks", VNum 0) ].

(** ** Installed reactive fields *)

(** The backing key [ik] is unused: no own property and nothing inherited. *)
Definition slot_absent (o : object) (ik : string) : Prop :=
  o_props o !! ik = None /\ proto_lookup (o_class o) ik = None.

(** [F] is an installed reactive field of controller [c], whose owning
    host is [h]: the accessor pair of [reactive] sits on [F], and [host]
    is the plain property the constructor assigned. *)
Definition installed (w : world) (c : nat) (F : string) (h : nat) : Prop :=
  exists o orig,
    objects w !! c = Some o /\
    o_props o !! F = Some (Accessor (internalKey F) orig) /\
    o_props o !! "host" = Some (Data (VHost h)).

(** No access to [F] has created its backing slot yet. *)
Definition untouched (w : world) (c : nat) (F : string) : Prop :=
  exists o, objects w !! c = Some o /\ slot_absent o (internalKey F).

(** The backing slot of [F] is the cell [l], created with host [h] and
    currently holding [v]. *)
Definition slot (w : world) (c : nat) (F : string) (l h : nat) (v : value) : Prop :=
  exists o,
    objects w !! c = Some o /\
    o_props o !! internalKey F = Some (Data (VCell l)) /\
    cells w !! l = Some {| rp_host := VHost h; rp_value := v |}.

(** The own property [k] of [o] is not an accessor. *)
Definition plain_at (o : object) (k : string) : Prop :=
  forall ik orig, o_props o !! k <> Some (Accessor ik orig).

(** Controller [c] has the own data property [K], holding [v]. *)
Definition holds_data (c : nat) (K : string) (v : value) (w : world) : Prop :=
  exists o, objects w !! c = Some o /\ o_props o !! K = Some (Data v).

(** Controller [c] has an accessor property [K]. *)
Definition holds_accessor (c : nat) (K : string) (w : world) : Prop :=
  exists o ik orig, objects w !! c = Some o /\ o_props o !! K = Some (Accessor ik orig).

(** The name of the private flag of [LiteElement]. *)
Definition flag : string := "reactivePropertiesInitialized".

(** The flag of [c] is set, or has been turned into an accessor. *)
Definition flag_set (c : nat) (w : world) : Prop :=
  holds_data c flag (VBool true) w \/ holds_accessor c flag w.

(** ** The object a constructor call builds *)

(** The value [this[k]] evaluates to on an object without accessor at [k]. *)
Definition lookup_value (o : object) (k : string) : value :=
  match o_props o !! k with
  | Some (Data v) => v
  | Some (Accessor _ _) => VUndefined
  | None => default VUndefined (proto_lookup (o_class o) k)
  end.

(** [o] with the own data property [k] set to [v]. *)
Definition own (k : string) (v : value) (o : object) : object :=
  {| o_class := o_class o; o_props := <[k := Data v]> (o_props o) |}.

(** The state with controller [r] replaced by [o]. *)
Definition set_obj (r : nat) (o : object) (w : world) : world :=
  with_objects <[r := o]> w.

(** The object the auto-binding loop leaves for one method name. *)
Definition bind_own (this : nat) (o : object) (m : string) : object :=
  match lookup_value o m with
  | VFun g => own m (VFun (Bound g this)) o
  | _ => o
  end.

(** The controller [new C(host, element)] builds at reference [this]. *)
Definition constructed (C : class) (this host element : nat) : object :=
  let o0 := own "element" (VElem element)
              (own "host" (VHost host)
                 (own "reactivePropertiesInitialized" (VBool false)
                    {| o_class := C; o_props := ∅ |})) in
  let methodNames :=
    List.filter (fun p => is_function (lookup_value o0 p)) (getOwnPropertyNames C) in
  fold_left (fun o kv => own (fst kv) (snd kv) o) (field_initialisers C)
    (fold_left (bind_own this) methodNames o0).

(** [o] has no accessor property. *)
Definition all_plain (o : object) : Prop := forall k, plain_at o k.

(** ** What a discovery step may change *)

(** Between [w0] and [w] no controller was constructed, the association of
    elements with controllers is the same, and so is the registry. *)
Definition no_instantiation (w0 w : world) : Prop :=
  dom (objects w) = dom (objects w0) /\
  controllers w = controllers w0 /\
  liteElementsInstancesMap w = liteElementsInstancesMap w0 /\
  liteElementsMap w = liteElementsMap w0.

(** Controller [c] exists and is an instance of class [C]. *)
Definition instance_of (c : nat) (C : class) (w : world) : Prop :=
  exists o, objects w !! c = Some o /\ o_class o = C.

(** The element passes the tests of the pass: an [HTMLElement] with a
    non-empty marker name that has a registered constructor. *)
Definition mountable (w : world) (e : element) : bool :=
  el_html e &&
  match el_lite e with
  | Some name =>
      truthy (VStr name) &&
      match liteElementsMap w !! name with Some _ => true | None => false end
  | None => false
  end.

(** ** Reads and renders that leave the state as it is *)

(** What [r[k]] evaluates to without changing the state, when it can: a
    data or inherited property, or an accessor whose slot exists. *)
Definition peek (w : world) (r : nat) (k : string) : option value :=
  match objects w !! r with
  | None => None
  | Some o =>
      match o_props o !! k with
      | Some (Data v) => Some v
      | None => Some (default VUndefined (proto_lookup (o_class o) k))
      | Some (Accessor ik _) =>
          match o_props o !! ik with
          | Some (Data (VCell l)) => rp_value <$> cells w !! l
          | _ => None
          end
      end
  end.

(** The template a method body evaluates to on [r] when every field it
    reads can be peeked. *)
Fixpoint peek_template (w : world) (r : nat) (body : list tpart) : option (list value) :=
  match body with
  | [] => Some []
  | TText s :: body' => (fun rest => VStr s :: rest) <$> peek_template w r body'
  | TField k :: body' =>
      match peek w r k, peek_template w r body' with
      | Some v, Some rest => Some (v :: rest)
      | _, _ => None
      end
  end.

(** The object and the template a call of [f] as a method of [this] runs. *)
Fixpoint render_target (f : func) (this : nat) : option (nat * list tpart) :=
  match f with
  | Bound g r => render_target g r
  | UserFn _ body => Some (this, body)
  | ClassCtor _ _ _ | Native _ => None
  end.

(** The template [r.render()] returns when every field it reads can be
    read without creating a slot. *)
Definition render_result (w : world) (r : nat) : option (list value) :=
  match peek w r "render" with
  | Some (VFun f) =>
      match render_target f r with
      | Some (t, body) => peek_template w t body
      | None => None
      end
  | _ => None
  end.

(** The commit a pass makes for [e] when its controller exists and renders
    without changing the state. *)
Definition rerender (w : world) (e : element) : list (value * list value) :=
  if mountable w e then
    match liteElementsInstancesMap w !! el_id e with
    | Some r =>
        match render_result w r with
        | Some t => [(VElem (el_id e), t)]
        | None => []
        end
    | None => []
    end
  else [].

(** A controller as the constructor and [reactive] leave it: [host] is a
    plain property, and the backing key of every accessor is either unused
    or holds a live [ReactiveProperty]. *)
Definition well_formed_object (cs : gmap nat ReactiveProperty) (o : object) : Prop :=
  plain_at o "host" /\
  forall k ik orig, o_props o !! k = Some (Accessor ik orig) ->
    slot_absent o ik \/
    exists l, o_props o !! ik = Some (Data (VCell l)) /\ is_Some (cs !! l).

(** Every controller of the state is well formed. *)
Definition well_formed (w : world) : Prop :=
  forall r o, objects w !! r = Some o -> well_formed_object (cells w) o.

(** [o'] is [o] with some backing slots filled in. *)
Definition object_grows (o o' : object) : Prop :=
  o_class o' = o_class o /\
  (forall k p, o_props o !! k = Some p -> o_props o' !! k = Some p) /\
  (forall k, o_props o !! k = None ->
     o_props o' !! k = None \/
     (proto_lookup (o_class o) k = None /\ exists l, o_props o' !! k = Some (Data (VCell l)))).

(** From [w] to [w'] controllers and cells were only added, and backing
    slots filled in. *)
Definition grows (w w' : world) : Prop :=
  (forall r o, objects w !! r = Some o ->
     exists o', objects w' !! r = Some o' /\ object_grows o o') /\
  (forall l c, cells w !! l = Some c -> cells w' !! l = Some c).

(** Between [w] and [w'] only backing slots were created. *)
Definition quiet (w w' : world) : Prop :=
  no_instantiation w w' /\ requests w' = requests w /\ commits w' = commits w.

(** [well_formed], as a test that can be run on a concrete state. *)
Definition well_formed_objectb (cs : gmap nat ReactiveProperty) (o : object) : bool :=
  match o_props o !! "host" with Some (Accessor _ _) => false | _ => true end &&
  forallb
    (fun kp : string * prop =>
       match snd kp with
       | Data _ => true
       | Accessor ik _ =>
           match o_props o !! ik with
           | None => match proto_lookup (o_class o) ik with None => true | Some _ => false end
           | Some (Data (VCell l)) => match cs !! l with Some _ => true | None => false end
           | Some _ => false
           end
       end)
    (map_to_list (o_props o)).

Definition well_formedb (w : world) : bool :=
  forallb (fun ro : nat * object => well_formed_objectb (cells w) (snd ro))
    (map_to_list (objects w)).

(** ** What runs inside a controller *)

(** From [w0] to [w] only the inside of the existing controllers, the
    cells and the logs of requests and commits have changed: the same
    controllers of the same classes, registered with the same hosts, the
    same registry and associations, the same connected hosts. *)
Definition inside (w0 w : world) : Prop :=
  dom (objects w) = dom (objects w0) /\
  (forall r o, objects w0 !! r = Some o ->
     exists o', objects w !! r = Some o' /\ o_class o' = o_class o) /\
  controllers w = controllers w0 /\
  liteElementsMap w = liteElementsMap w0 /\
  liteElementsInstancesMap w = liteElementsInstancesMap w0 /\
  connected w = connected w0.

(** The state in which [new C(host, element)] at [this] has assigned the
    flag, [host] and [element] and the host has recorded the controller:
    the point at which [addController] may call back. *)
Definition allocated (C : class) (this host element : nat) (w : world) : world :=
  with_controllers (fun cs => cs ++ [(host, this)])
    (set_obj this
       (own "element" (VElem element)
          (own "host" (VHost host)
             (own "reactivePropertiesInitialized" (VBool false)
                {| o_class := C; o_props := ∅ |}))) w).

(** From [w] to [w'] controllers were only added, none changed its class,
    associations were only added, and the registry and the connected hosts
    are the same. *)
Definition keeps (w w' : world) : Prop :=
  dom (objects w) ⊆ dom (objects w') /\
  (forall c C, instance_of c C w -> instance_of c C w') /\
  (forall id r, liteElementsInstancesMap w !! id = Some r ->
                liteElementsInstancesMap w' !! id = Some r) /\
  liteElementsMap w' = liteElementsMap w /\
  connected w' = connected w.

(** ** Which method a hook reaches *)


(** A controller class with an [update] method of its own, which commits
    nothing. *)
Definition Silent : class :=
  Extends "Silent" LiteElement None
    [ ("update", VFun (UserFn "update" []));
      ("render", VFun (UserFn "render" [TText "silent"])) ]
    [].

(** Host 7 has mounted one [<div lite="silent">], element 1; controller 0. *)
Definition silent_mounted : world :=
  final ((lite [("silent", Silent)] ;;
          updateContent 3 7 (Some [marker 1 "silent"])) empty_world).

(** ** A class that reaches into another controller *)

(** [Quiet] has a [hostConnected] of its own, so nothing installs its
    inherited reactive field [count] when it is constructed; [Meddler] uses
    as its [hostConnected] the [initReactiveProperties] of controller 0,
    bound to it. *)
Definition Quiet : class :=
  Extends "Quiet" CounterBase None
    [ ("hostConnected", VFun (UserFn "hostConnected" []));
      ("render", VFun (UserFn "render" [TField "count"])) ]
    [ ("count", VNum 1) ].

Definition Meddler : class :=
  Extends "Meddler" LiteElement None
    [ ("hostConnected", VFun (Bound (Native "initReactiveProperties") 0));
      ("render", VFun (UserFn "render" [])) ]
    [].

(** The connected host 7 with both classes registered, and its two marker
    elements. *)
Definition meddling : world :=
  final (lite [("quiet", Quiet); ("meddler", Meddler)] (connect 7 empty_world)).

Definition meddling_elements : list element := [marker 1 "quiet"; marker 2 "meddler"].

(** ** Two sentences of the specification, as worded *)

(** The claim as the specification words it: every write to an installed
    reactive field requests exactly one update, so two writes request two. *)
Definition every_write_requests_update : Prop :=
  forall n w c F h v1 v2,
    installed w c F h ->
    exists w1 w2,
      js_set (S (S n)) c F v1 w = Ok tt w1 /\
      requests w1 = requests w ++ [h] /\
      js_set (S (S n)) c F v2 w1 = Ok tt w2 /\
      requests w2 = requests w ++ [h; h].


(** The claim as the specification words it: a field that the class of a
    controller declares reactive and initialises with [v], read after the
    installation of the reactive fields and before any write, returns [v],
    and that read creates its backing slot. *)
Definition declared_field_reads_default : Prop :=
  forall n C F v host element w r w1 w2,
    (exists ps, static_properties false (ctor_of C) = Some ps /\ In F ps) ->
    assoc F (rev (field_initialisers C)) = Some v ->
    new (S (S n)) C host element w = Ok r w1 ->
    initReactiveProperties (S (S n)) r w1 = Ok tt w2 ->
    exists l w3,
      js_get (S (S n)) r F w2 = Ok v w3 /\
      cells w2 !! l = None /\
      cells w3 !! l = Some {| rp_host := VHost host; rp_value := v |}.

(** ** States used to illustrate further properties *)

(** A value that is neither [undefined], [null] nor a [ReactiveProperty]. *)
Definition not_a_slot (v : value) : Prop :=
  match v with
  | VUndefined | VNull | VCell _ => False
  | _ => True
  end.

(** Controller 0 of [mounted] with a field [__count] of its own, holding 5,
    and [count] made reactive afterwards. *)
Definition shadowed : world :=
  final ((js_set 1 0 "__count" (VNum 5) ;; reactive 1 0 "count") mounted).

(** Controller 0 of [mounted] with [host] overwritten by [undefined], and
    [count] made reactive. *)
Definition hostless : world :=
  final ((js_set 1 0 "host" VUndefined ;; reactive 1 0 "count") mounted).

(** Controller 0 of [mounted] with [host] itself made reactive. *)
Definition reactive_host : world := final (reactive 1 0 "host" mounted).

(** ** What the installation step iterates *)

(** [o] after [reactive(o, p)], for a property [p] that was not an accessor. *)
Definition accessorise (p : string) (o : object) : object :=
  {| o_class := o_class o;
     o_props := <[p := Accessor (internalKey p) (lookup_value o p)]> (o_props o) |}.

(** The function a chain of [bind] calls started from. *)
Fixpoint unbind (f : func) : func :=
  match f with
  | Bound g _ => unbind g
  | _ => f
  end.

(** The static [properties] a class inherits: those visible from the
    constructor it extends. *)
Definition inherited_properties (C : class) : option (list string) :=
  match C with
  | LiteElement => None
  | Extends _ s _ _ _ => static_properties false (ctor_of s)
  end.

(** ** Properties of whole states *)

(** [w] is well formed and comes from [w0] by filling backing slots only. *)
Definition settles (w0 w : world) : Prop :=
  well_formed w /\ grows w0 w /\ quiet w0 w.

(** Every associated controller exists, and no two elements share one. *)
Definition associations_sound (w : world) : Prop :=
  (forall id r, liteElementsInstancesMap w !! id = Some r -> r ∈ dom (objects w)) /\
  (forall id1 id2 r,
     liteElementsInstancesMap w !! id1 = Some r ->
     liteElementsInstancesMap w !! id2 = Some r -> id1 = id2).

(** A controller class that does not implement [render]. *)
Definition Broken : class := Extends "Broken" LiteElement None [] [].

Definition broken_registered : world := final (lite [("broken", Broken)] empty_world).

(** The state in which the step for [<div lite="broken">] throws. *)
Definition broken_mounted : world := final (mount 2 7 (marker 1 "broken") broken_registered).

(** No controller of the state has an accessor property: [reactive] has
    not been run on any of them. *)
Definition no_accessors (w : world) : Prop :=
  forall r o, objects w !! r = Some o -> all_plain o.


(** * Proofs *)

(** ** Plain property access *)

Arguments js_access : simpl never.

Lemma js_access_S n this k a w :
  js_access (S n) this k a w =
  match objects w !! this with
  | None => Throw TypeError w
  | Some o =>
      match o_props o !! k, a with
      | Some (Data v), Read => Ok v w
      | None, Read => Ok (default VUndefined (proto_lookup (o_class o) k)) w
      | Some (Accessor ik orig), Read =>
          getter (fun t x => js_access n t x Read)
                 (fun t x v => js_access n t x (Write v) ;; ret tt)
                 ik orig this w
      | Some (Accessor ik _), Write v =>
          (setter (fun t x => js_access n t x Read)
                  (fun t x v => js_access n t x (Write v) ;; ret tt)
                  ik this v ;; ret VUndefined) w
      | _, Write v => Ok VUndefined (define this k (Data v) w)
      end
  end.
Proof. reflexivity. Qed.

Lemma define_objects r k p w o :
  objects w !! r = Some o ->
  objects (define r k p w) !! r
  = Some {| o_class := o_class o; o_props := <[k := p]> (o_props o) |}.
Proof. intros H. unfold define. simpl. rewrite lookup_alter_eq, H. reflexivity. Qed.

Lemma define_objects_ne r r' k p w :
  r <> r' -> objects (define r k p w) !! r' = objects w !! r'.
Proof. intros H. unfold define. simpl. by rewrite lookup_alter_ne. Qed.

Lemma read_data n r k w o v :
  objects w !! r = Some o -> o_props o !! k = Some (Data v) ->
  js_access (S n) r k Read w = Ok v w.
Proof. intros Ho Hk. by rewrite js_access_S, Ho, Hk. Qed.

Lemma read_absent n r k w o :
  objects w !! r = Some o -> o_props o !! k = None ->
  js_access (S n) r k Read w
  = Ok (default VUndefined (proto_lookup (o_class o) k)) w.
Proof. intros Ho Hk. by rewrite js_access_S, Ho, Hk. Qed.

Lemma write_data n r k w o v v' :
  objects w !! r = Some o -> o_props o !! k = Some (Data v') ->
  js_access (S n) r k (Write v) w = Ok VUndefined (define r k (Data v) w).
Proof. intros Ho Hk. by rewrite js_access_S, Ho, Hk. Qed.

Lemma write_absent n r k w o v :
  objects w !! r = Some o -> o_props o !! k = None ->
  js_access (S n) r k (Write v) w = Ok VUndefined (define r k (Data v) w).
Proof. intros Ho Hk. by rewrite js_access_S, Ho, Hk. Qed.

(** ** The accessors of an installed field *)

Lemma getter_creates n r k w o ik orig hv :
  objects w !! r = Some o ->
  o_props o !! k = Some (Accessor ik orig) ->
  o_props o !! "host" = Some (Data hv) ->
  slot_absent o ik ->
  let l := fresh (dom (cells w)) in
  js_get (S (S n)) r k w
  = Ok orig (define r ik (Data (VCell l))
               (with_cells <[l := {| rp_host := hv; rp_value := orig |}]> w)).
Proof.
  intros Ho Hk Hh [Hik Hp] l. unfold js_get. rewrite js_access_S, Ho, Hk.
  unfold getter, bind.
  rewrite (read_absent _ _ _ _ _ Ho Hik), Hp. simpl.
  rewrite (read_data _ _ _ _ _ _ Ho Hh).
  unfold ReactiveProperty_new. fold l.
  erewrite write_absent by (simpl; eauto). unfold ret.
  erewrite read_data; [| by apply define_objects | simpl; apply lookup_insert_eq].
  unfold ReactiveProperty_get. simpl. by rewrite lookup_insert_eq.
Qed.

Lemma getter_reads n r k w o ik orig l c :
  objects w !! r = Some o ->
  o_props o !! k = Some (Accessor ik orig) ->
  o_props o !! ik = Some (Data (VCell l)) ->
  cells w !! l = Some c ->
  js_get (S (S n)) r k w = Ok (rp_value c) w.
Proof.
  intros Ho Hk Hik Hl. unfold js_get. rewrite js_access_S, Ho, Hk.
  unfold getter, bind.
  rewrite (read_data _ _ _ _ _ _ Ho Hik). unfold ret.
  rewrite (read_data _ _ _ _ _ _ Ho Hik).
  unfold ReactiveProperty_get. by rewrite Hl.
Qed.

Lemma setter_creates n r k w o ik orig hv v :
  objects w !! r = Some o ->
  o_props o !! k = Some (Accessor ik orig) ->
  o_props o !! "host" = Some (Data hv) ->
  slot_absent o ik ->
  let l := fresh (dom (cells w)) in
  js_set (S (S n)) r k v w
  = Ok tt (define r ik (Data (VCell l))
             (with_cells <[l := {| rp_host := hv; rp_value := v |}]> w)).
Proof.
  intros Ho Hk Hh [Hik Hp] l. unfold js_set.
  unfold bind at 1. rewrite js_access_S, Ho, Hk.
  unfold setter, bind.
  rewrite (read_absent _ _ _ _ _ Ho Hik), Hp. simpl.
  rewrite (read_data _ _ _ _ _ _ Ho Hh).
  unfold ReactiveProperty_new. fold l.
  erewrite write_absent by (simpl; eauto). reflexivity.
Qed.

Lemma setter_updates n r k w o ik orig l h v0 v :
  objects w !! r = Some o ->
  o_props o !! k = Some (Accessor ik orig) ->
  o_props o !! ik = Some (Data (VCell l)) ->
  cells w !! l = Some {| rp_host := VHost h; rp_value := v0 |} ->
  js_set (S (S n)) r k v w
  = Ok tt (with_requests (fun rs => rs ++ [h])
             (with_cells <[l := {| rp_host := VHost h; rp_value := v |}]> w)).
Proof.
  intros Ho Hk Hik Hl. unfold js_set.
  unfold bind at 1. rewrite js_access_S, Ho, Hk.
  unfold setter, bind.
  rewrite (read_data _ _ _ _ _ _ Ho Hik).
  rewrite (read_data _ _ _ _ _ _ Ho Hik).
  unfold ReactiveProperty_set. rewrite Hl. reflexivity.
Qed.

Lemma write_with_slot n w c F l h v0 v :
  installed w c F h -> slot w c F l h v0 ->
  exists w',
    js_set (S (S n)) c F v w = Ok tt w' /\
    requests w' = requests w ++ [h] /\
    objects w' = objects w /\
    installed w' c F h /\ slot w' c F l h v.
Proof.
  intros (o & orig & Ho & HF & Hh) (o' & Ho' & Hik & Hl).
  rewrite Ho in Ho'. injection Ho' as <-.
  eexists. split; [eapply setter_updates; eauto|].
  split; [reflexivity|]. split; [reflexivity|]. split.
  - exists o, orig. auto.
  - exists o. simpl. rewrite lookup_insert_eq. auto.
Qed.

Lemma write_without_slot n w c F h v :
  installed w c F h -> untouched w c F ->
  exists w' l,
    js_set (S (S n)) c F v w = Ok tt w' /\
    requests w' = requests w /\
    (l ∉ dom (cells w)) /\
    installed w' c F h /\ slot w' c F l h v.
Proof.
  intros (o & orig & Ho & HF & Hh) (o' & Ho' & Habs).
  rewrite Ho in Ho'. injection Ho' as <-.
  assert (Hne1 : internalKey F <> F).
  { intros E. destruct Habs as [Habs _]. rewrite E in Habs. congruence. }
  assert (Hne2 : internalKey F <> "host").
  { intros E. destruct Habs as [Habs _]. rewrite E in Habs. congruence. }
  eexists. exists (fresh (dom (cells w))).
  split; [eapply setter_creates; eauto|].
  split; [reflexivity|]. split; [apply is_fresh|]. split.
  - eexists. exists orig. split; [by apply define_objects|]. simpl.
    rewrite !lookup_insert_ne by done. auto.
  - eexists. split; [by apply define_objects|]. simpl.
    rewrite !lookup_insert_eq. auto.
Qed.

Lemma read_with_slot n w c F l h v :
  installed w c F h -> slot w c F l h v ->
  js_get (S (S n)) c F w = Ok v w.
Proof.
  intros (o & orig & Ho & HF & Hh) (o' & Ho' & Hik & Hl).
  rewrite Ho in Ho'. injection Ho' as <-.
  by erewrite getter_reads by eauto.
Qed.

(** ** Writes to a reactive field (C1, C9) *)

Lemma initialised_installed : installed initialised 0 "count" 7.
Proof. eexists. eexists. repeat split; vm_compute; reflexivity. Qed.

Lemma initialised_untouched : untouched initialised 0 "count".
Proof. eexists. repeat split; vm_compute; reflexivity. Qed.

(** C1, counterexample: on the freshly installed field [count] of the
    counter, the first write creates the slot and requests nothing, so the
    claim as worded fails. *)
Lemma first_write_requests_nothing : ~ every_write_requests_update.
Proof.
  intros H.
  destruct (H 0 initialised 0 "count" 7 (VNum 1) (VNum 1) initialised_installed)
    as (w1 & w2 & E1 & R1 & _).
  vm_compute in E1. injection E1 as <-. vm_compute in R1. discriminate R1.
Qed.

(** C1 (amended): once the backing slot of an installed reactive field
    exists, every assignment to the field issues exactly one update request
    on the owning host, whatever the value assigned and whatever the value
    held; two assignments issue exactly two, and the field then reads as the
    last value written. *)
Theorem write_requests_one_update n w c F l h v0 v1 v2 :
  installed w c F h -> slot w c F l h v0 ->
  exists w1 w2,
    js_set (S (S n)) c F v1 w = Ok tt w1 /\
    requests w1 = requests w ++ [h] /\
    js_set (S (S n)) c F v2 w1 = Ok tt w2 /\
    requests w2 = requests w ++ [h; h] /\
    js_get (S (S n)) c F w2 = Ok v2 w2.
Proof.
  intros Hi Hs.
  destruct (write_with_slot n w c F l h v0 v1 Hi Hs) as (w1 & E1 & R1 & _ & Hi1 & Hs1).
  destruct (write_with_slot n w1 c F l h v1 v2 Hi1 Hs1) as (w2 & E2 & R2 & _ & Hi2 & Hs2).
  exists w1, w2. repeat split; try assumption.
  - rewrite R2, R1, <- app_assoc. reflexivity.
  - eapply read_with_slot; eassumption.
Qed.

Lemma write_requests_one_update_witness :
  exists w1 w2,
    js_set 2 0 "count" (VNum 0) rendered = Ok tt w1 /\
    requests w1 = requests rendered ++ [7] /\
    js_set 2 0 "count" (VNum 0) w1 = Ok tt w2 /\
    requests w2 = requests rendered ++ [7; 7] /\
    js_get 2 0 "count" w2 = Ok (VNum 0) w2.
Proof.
  apply (write_requests_one_update 0 rendered 0 "count" 0 7 (VNum 0) (VNum 0) (VNum 0)).
  - eexists. eexists. repeat split; vm_compute; reflexivity.
  - eexists. repeat split; vm_compute; reflexivity.
Defined.

(** C9: when the first access to an installed reactive field is a write,
    that write creates the backing slot, seeded with the written value, and
    issues no update request; every write after it issues exactly one. *)
Theorem first_write_creates_slot n w c F h v :
  installed w c F h -> untouched w c F ->
  exists w1 l,
    js_set (S (S n)) c F v w = Ok tt w1 /\
    requests w1 = requests w /\
    (l ∉ dom (cells w)) /\
    slot w1 c F l h v /\
    forall v', exists w2,
      js_set (S (S n)) c F v' w1 = Ok tt w2 /\
      requests w2 = requests w1 ++ [h] /\
      slot w2 c F l h v'.
Proof.
  intros Hi Hu.
  destruct (write_without_slot n w c F h v Hi Hu) as (w1 & l & E1 & R1 & Hl & Hi1 & Hs1).
  exists w1, l. repeat split; try assumption.
  intros v'.
  destruct (write_with_slot n w1 c F l h v v' Hi1 Hs1) as (w2 & E2 & R2 & _ & _ & Hs2).
  exists w2. auto.
Qed.

Lemma first_write_creates_slot_witness :
  exists w1 l,
    js_set 2 0 "count" (VNum 5) initialised = Ok tt w1 /\
    requests w1 = requests initialised /\
    (l ∉ dom (cells initialised)) /\
    slot w1 0 "count" l 7 (VNum 5) /\
    forall v', exists w2,
      js_set 2 0 "count" v' w1 = Ok tt w2 /\
      requests w2 = requests w1 ++ [7] /\
      slot w2 0 "count" l 7 v'.
Proof.
  apply (first_write_creates_slot 0 initialised 0 "count" 7 (VNum 5)).
  - eexists. eexists. repeat split; vm_compute; reflexivity.
  - eexists. repeat split; vm_compute; reflexivity.
Defined.

(** ** Invariants of property access *)

Lemma final_bind {A B} (P : world -> Prop) (m : M A) (k : A -> M B) w :
  P (final (m w)) ->
  (forall a w', m w = Ok a w' -> P (final (k a w'))) ->
  P (final (bind m k w)).
Proof. intros Hm Hk. unfold bind. destruct (m w) eqn:E; simpl in *; auto. Qed.

Section invariant.
(** [P] survives the state changes an access can make: creating or
    overwriting a data property at a place [ok_write] allows, and changes
    to the cells and to the request log.  The accessors only write a
    property that has just read as [undefined]. *)
Variable P : world -> Prop.
Variable ok_write : nat -> string -> Prop.
Hypothesis P_define : forall w r k v o,
  P w -> ok_write r k -> objects w !! r = Some o -> plain_at o k ->
  P (define r k (Data v) w).
Hypothesis P_cells : forall w f, P w -> P (with_cells f w).
Hypothesis P_requests : forall w f, P w -> P (with_requests f w).
Hypothesis undefined_ok : forall n w r k w',
  P w -> js_access n r k Read w = Ok VUndefined w' -> ok_write r k.

Lemma access_invariant fuel : forall r k a w,
  P w -> (forall v, a = Write v -> ok_write r k) ->
  P (final (js_access fuel r k a w)).
Proof.
  induction fuel as [|n IH]; intros r k a w HP Hw; [exact HP|].
  rewrite js_access_S. destruct (objects w !! r) as [o|] eqn:Ho; [|exact HP].
  assert (Hcreate : forall h v w1 ik, P w1 -> ok_write r ik ->
    P (final ((do l <- ReactiveProperty_new h v;
               (js_access n r ik (Write (VCell l)) ;; ret tt)) w1))).
  { intros h v w1 ik HP1 Hok. apply final_bind.
    - simpl. by apply P_cells.
    - intros l w2 E. unfold ReactiveProperty_new in E.
      inversion E; subst; clear E. apply final_bind.
      + apply IH; [by apply P_cells | auto].
      + intros u w3 E. simpl.
        change w3 with (final (Ok u w3)). rewrite <- E.
        apply IH; [by apply P_cells | auto]. }
  assert (Hslot : forall w1 ik v, P w1 -> ok_write r ik ->
    P (final ((do h <- js_access n r "host" Read;
               do l <- ReactiveProperty_new h v;
               (js_access n r ik (Write (VCell l)) ;; ret tt)) w1))).
  { intros w1 ik v HP1 Hok. apply final_bind.
    - apply IH; [done | discriminate].
    - intros h w2 E. apply Hcreate; [|done].
      change w2 with (final (Ok h w2)). rewrite <- E. apply IH; [done | discriminate]. }
  destruct (o_props o !! k) as [[v|ik orig]|] eqn:Hk; destruct a as [|v'];
    try exact HP.
  - (* write to a data property *)
    simpl. eapply P_define; eauto. intros ? ?. congruence.
  - (* getter *)
    unfold getter. apply final_bind; [apply IH; [done | discriminate]|].
    intros cur w1 E1.
    assert (HP1 : P w1).
    { change w1 with (final (Ok cur w1)). rewrite <- E1. apply IH; [done | discriminate]. }
    apply final_bind.
    + destruct cur; try exact HP1.
      apply Hslot; [done|]. exact (undefined_ok _ _ _ _ _ HP E1).
    + intros u w2 E2.
      assert (HP2 : P w2).
      { change w2 with (final (Ok u w2)). rewrite <- E2.
        destruct cur; try exact HP1.
        apply Hslot; [done|]. exact (undefined_ok _ _ _ _ _ HP E1). }
      apply final_bind; [apply IH; [done | discriminate]|].
      intros s w3 E3.
      assert (HP3 : P w3).
      { change w3 with (final (Ok s w3)). rewrite <- E3. apply IH; [done | discriminate]. }
      destruct s; try exact HP3.
      unfold ReactiveProperty_get. destruct (cells w3 !! l); exact HP3.
  - (* setter *)
    assert (Hset : P (final (setter (fun t x => js_access n t x Read)
                               (fun t x v => js_access n t x (Write v) ;; ret tt)
                               ik r v' w))).
    { unfold setter. apply final_bind; [apply IH; [done | discriminate]|].
      intros cur w1 E1.
      assert (HP1 : P w1).
      { change w1 with (final (Ok cur w1)). rewrite <- E1.
        apply IH; [done | discriminate]. }
      destruct cur;
        try (apply Hslot; [done|]; exact (undefined_ok _ _ _ _ _ HP E1)).
      all: apply final_bind; [apply IH; [done | discriminate]|].
      all: intros sl w3 E3;
        assert (HP3 : P w3) by
          (change w3 with (final (Ok sl w3)); rewrite <- E3;
           apply IH; [done | discriminate]).
      all: destruct sl as [| | | | | | |cl|]; try exact HP3.
      all: unfold ReactiveProperty_set; destruct (cells w3 !! cl) as [c|];
        [|exact HP3].
      all: apply final_bind; [simpl; by apply P_cells|].
      all: intros u w4 E4; unfold modify in E4; inversion E4; subst; clear E4.
      all: unfold requestUpdate; destruct (rp_host c); simpl;
        try (by apply P_cells); by apply P_requests, P_cells. }
    apply final_bind; [exact Hset|].
    intros u w1 E1. simpl. change w1 with (final (Ok u w1)). by rewrite <- E1.
  - (* write to a new property *)
    simpl. eapply P_define; eauto. intros ? ?. congruence.
Qed.

Lemma js_get_invariant fuel r k w : P w -> P (final (js_get fuel r k w)).
Proof. intros HP. apply access_invariant; [done | discriminate]. Qed.

Lemma js_get_invariant_Ok fuel r k w v w' :
  P w -> js_get fuel r k w = Ok v w' -> P w'.
Proof.
  intros HP E. change w' with (final (Ok v w')). rewrite <- E.
  by apply js_get_invariant.
Qed.

Lemma eval_template_invariant fuel r body : forall w,
  P w -> P (final (eval_template fuel r body w)).
Proof.
  induction body as [|[s|k] body IH]; intros w HP; simpl; [done| |].
  - apply final_bind; [by apply IH|]. intros rest w' E. simpl.
    change w' with (final (Ok rest w')). rewrite <- E. by apply IH.
  - apply final_bind; [by apply js_get_invariant|]. intros v w1 E1.
    apply js_get_invariant_Ok in E1; [|done].
    apply final_bind; [by apply IH|]. intros rest w' E. simpl.
    change w' with (final (Ok rest w')). rewrite <- E. by apply IH.
Qed.

Lemma call_method_invariant fuel f : forall r w,
  P w -> P (final (call_method fuel f r w)).
Proof.
  induction f as [| | |g IH r']; intros r w HP; simpl; try done.
  - by apply eval_template_invariant.
  - by apply IH.
Qed.

Lemma call_render_invariant fuel r w :
  P w -> P (final (call_render fuel r w)).
Proof.
  intros HP. unfold call_render. apply final_bind; [by apply js_get_invariant|].
  intros f w1 E1. apply js_get_invariant_Ok in E1; [|done].
  destruct f; try done. by apply call_method_invariant.
Qed.
End invariant.

(** A data property that does not hold [undefined] is never overwritten by
    an access to another property: the accessors only fill properties that
    read as [undefined]. *)
Lemma data_kept c K v fuel r k a w :
  v <> VUndefined ->
  holds_data c K v w ->
  (forall v', a = Write v' -> ~ (r = c /\ k = K)) ->
  holds_data c K v (final (js_access fuel r k a w)).
Proof.
  intros Hv. apply (access_invariant (holds_data c K v) (fun r k => ~ (r = c /\ k = K))).
  - intros w0 r0 k0 v0 o (o' & Ho' & HK) Hok Ho _.
    destruct (decide (r0 = c)) as [->|Hne].
    + exists {| o_class := o_class o'; o_props := <[k0 := Data v0]> (o_props o') |}.
      split; [by apply define_objects|]. simpl.
      rewrite lookup_insert_ne; [done|]. intros ->. by apply Hok.
    + exists o'. split; [|done]. by rewrite define_objects_ne.
  - intros w0 f H. exact H.
  - intros w0 f H. exact H.
  - intros n w0 r0 k0 w' (o' & Ho' & HK) E [-> ->].
    destruct n as [|n]; [discriminate|].
    rewrite (read_data _ _ _ _ _ _ Ho' HK) in E. congruence.
Qed.

(** An accessor property stays where it is: plain assignment never
    replaces it. *)
Lemma accessor_kept c K fuel r k a w :
  holds_accessor c K w ->
  holds_accessor c K (final (js_access fuel r k a w)).
Proof.
  intros H. apply (access_invariant (holds_accessor c K) (fun _ _ => True)); try done.
  intros w0 r0 k0 v0 o (o' & ik & orig & Ho' & HK) _ Ho Hplain.
  destruct (decide (r0 = c)) as [->|Hne].
  - exists {| o_class := o_class o'; o_props := <[k0 := Data v0]> (o_props o') |}, ik, orig.
    split; [by apply define_objects|]. simpl.
    rewrite lookup_insert_ne; [done|]. intros ->.
    rewrite Ho' in Ho. injection Ho as <-. by eapply Hplain.
  - exists o', ik, orig. split; [|done]. by rewrite define_objects_ne.
Qed.

(** ** Installation of the reactive fields (C6) *)

Lemma reactive_flag_set fuel c p w :
  flag_set c w -> flag_set c (final (reactive fuel c p w)).
Proof.
  intros HQ. unfold reactive. apply final_bind.
  - destruct HQ as [H|H]; [left|right].
    + apply data_kept; [done | done | discriminate].
    + by apply accessor_kept.
  - intros orig w1 E. simpl.
    assert (HQ1 : flag_set c w1).
    { change w1 with (final (Ok orig w1)). rewrite <- E.
      destruct HQ as [H|H]; [left|right].
      - apply data_kept; [done | done | discriminate].
      - by apply accessor_kept. }
    destruct (decide (p = flag)) as [->|Hne].
    + right. destruct HQ1 as [(o & Ho & _)|(o & _ & _ & Ho & _)].
      all: eexists; exists (internalKey flag), orig.
      all: split; [by apply define_objects|]; simpl; apply lookup_insert_eq.
    + destruct HQ1 as [(o & Ho & HK)|(o & ik & og & Ho & HK)]; [left|right].
      * eexists. split; [by apply define_objects|]. simpl. by rewrite lookup_insert_ne.
      * eexists. exists ik, og. split; [by apply define_objects|]. simpl.
        by rewrite lookup_insert_ne.
Qed.

Lemma forEach_reactive_flag_set fuel c ps : forall w,
  flag_set c w -> flag_set c (final (forEach (reactive fuel c) ps w)).
Proof.
  induction ps as [|p ps IH]; intros w HQ; [exact HQ|]. simpl.
  apply final_bind; [by apply reactive_flag_set|].
  intros u w1 E. apply IH. change w1 with (final (Ok u w1)). rewrite <- E.
  by apply reactive_flag_set.
Qed.

(** The guard: with the flag set, the installation step does nothing. *)
Lemma guard_skips n c w v :
  holds_data c flag v w -> truthy v = true ->
  initReactiveProperties (S n) c w = Ok tt w.
Proof.
  intros (o & Ho & HK) Hv. unfold initReactiveProperties, bind, js_get.
  rewrite (read_data _ _ _ _ _ _ Ho HK), Hv. reflexivity.
Qed.

(** After the installation step has run, a flag that is still a plain
    property is set. *)
Lemma flag_after_installation fuel c w w1 fv :
  initReactiveProperties fuel c w = Ok tt w1 ->
  holds_data c flag fv w1 ->
  truthy fv = true.
Proof.
  intros E (o1 & Ho1 & HK1). unfold initReactiveProperties in E.
  unfold flag_set, flag in *.
  unfold bind at 1 in E.
  destruct (js_get fuel c "reactivePropertiesInitialized" w) as [v w'|] eqn:Eg;
    [|discriminate].
  destruct (truthy v) eqn:Hv; simpl in E.
  - (* the flag read as set: nothing was done *)
    injection E as <-. destruct fuel as [|n]; [discriminate|].
    unfold js_get in Eg. rewrite js_access_S in Eg.
    destruct (objects w !! c) as [o|] eqn:Ho; [|discriminate].
    destruct (o_props o !! "reactivePropertiesInitialized") as [[v0|ik orig]|] eqn:HK.
    + injection Eg as <- <-. rewrite Ho in Ho1. injection Ho1 as <-.
      congruence.
    + assert (Hacc : holds_accessor c flag w) by (exists o, ik, orig; auto).
      apply (accessor_kept _ _ (S n) c flag Read) in Hacc. unfold flag in Hacc.
      rewrite js_access_S, Ho in Hacc. rewrite HK in Hacc.
      rewrite Eg in Hacc. simpl in Hacc.
      destruct Hacc as (o' & ? & ? & Ho' & HK'). congruence.
    + injection Eg as <- <-. rewrite Ho in Ho1. injection Ho1 as <-.
      congruence.
  - (* the flag read as unset: it is assigned, then the fields are installed *)
    unfold bind at 1 in E.
    destruct (js_set fuel c "reactivePropertiesInitialized" (VBool true) w')
      as [u w2|] eqn:Es; [|discriminate].
    assert (HQ2 : flag_set c w2); unfold flag_set, flag in *.
    { destruct fuel as [|n]; [discriminate|].
      unfold js_set, bind in Es.
      destruct (js_access (S n) c "reactivePropertiesInitialized" (Write (VBool true)) w')
        as [u' w2'|] eqn:Ew; [|discriminate].
      injection Es as _ <-. rewrite js_access_S in Ew.
      destruct (objects w' !! c) as [o|] eqn:Ho; [|discriminate].
      destruct (o_props o !! "reactivePropertiesInitialized") as [[v0|ik orig]|] eqn:HK.
      - injection Ew as _ <-. left. eexists. split; [by apply define_objects|].
        simpl. apply lookup_insert_eq.
      - right. assert (Hacc : holds_accessor c flag w') by (exists o, ik, orig; auto).
        apply (accessor_kept _ _ (S n) c flag (Write (VBool true))) in Hacc.
        unfold flag in Hacc.
        rewrite js_access_S, Ho in Hacc. rewrite HK in Hacc.
        rewrite Ew in Hacc. exact Hacc.
      - injection Ew as _ <-. left. eexists. split; [by apply define_objects|].
        simpl. apply lookup_insert_eq. }
    assert (HQ1 : flag_set c w1); unfold flag_set, flag in *.
    { change w1 with (final (Ok tt w1)). rewrite <- E. apply final_bind.
      - destruct HQ2 as [H|H]; [left|right].
        + apply data_kept; [done | done | discriminate].
        + by apply accessor_kept.
      - intros ctor w3 E3.
        assert (HQ3 : flag_set c w3); unfold flag_set, flag in *.
        { change w3 with (final (Ok ctor w3)). rewrite <- E3.
          destruct HQ2 as [H|H]; [left|right].
          - apply data_kept; [done | done | discriminate].
          - by apply accessor_kept. }
        destruct ctor; try exact HQ3.
        destruct (static_properties false f); [|exact HQ3].
        by apply (forEach_reactive_flag_set fuel c l w3). }
    destruct HQ1 as [(o & Ho & HK)|(o & ik & orig & Ho & HK)].
    + rewrite Ho in Ho1. injection Ho1 as <-. rewrite HK in HK1. by injection HK1 as <-.
    + rewrite Ho in Ho1. injection Ho1 as <-. congruence.
Qed.

(** C6: invoking the installation step a second time changes nothing.  If
    [initReactiveProperties] has run on a controller whose flag is a plain
    field, running it again returns at once and leaves the whole state as
    it was: no accessor is wrapped again and no value is reset. *)
Theorem installation_idempotent n w c w1 fv :
  initReactiveProperties (S n) c w = Ok tt w1 ->
  holds_data c flag fv w1 ->
  initReactiveProperties (S n) c w1 = Ok tt w1.
Proof.
  intros E H. eapply guard_skips; [exact H|].
  eapply flag_after_installation; eassumption.
Qed.

Lemma installation_idempotent_witness :
  initReactiveProperties 3 0 initialised = Ok tt initialised.
Proof.
  apply (installation_idempotent 2 mounted 0 initialised (VBool true)).
  - vm_compute. reflexivity.
  - eexists. split; vm_compute; reflexivity.
Defined.

(** ** Construction *)

Lemma read_plain n r k w o :
  objects w !! r = Some o -> plain_at o k ->
  js_access (S n) r k Read w = Ok (lookup_value o k) w.
Proof.
  intros Ho Hp. rewrite js_access_S, Ho. unfold lookup_value.
  destruct (o_props o !! k) as [[v|ik orig]|] eqn:Hk; try done.
  by destruct (Hp ik orig).
Qed.

Lemma define_set r k v w o :
  objects w !! r = Some o -> define r k (Data v) w = set_obj r (own k v o) w.
Proof.
  intros Ho. unfold define, set_obj, with_objects. f_equal.
  apply map_eq. intros i. destruct (decide (i = r)) as [->|Hne].
  - by rewrite lookup_alter_eq, lookup_insert_eq, Ho.
  - by rewrite lookup_alter_ne, lookup_insert_ne.
Qed.

Lemma write_plain n r k v w o :
  objects w !! r = Some o -> plain_at o k ->
  js_access (S n) r k (Write v) w = Ok VUndefined (set_obj r (own k v o) w).
Proof.
  intros Ho Hp. rewrite js_access_S, Ho, <- (define_set _ _ _ _ _ Ho).
  destruct (o_props o !! k) as [[v0|ik orig]|] eqn:Hk; try done.
  by destruct (Hp ik orig).
Qed.

Lemma set_obj_lookup r o w : objects (set_obj r o w) !! r = Some o.
Proof. apply lookup_insert_eq. Qed.

Lemma set_obj_twice r o o' w : set_obj r o' (set_obj r o w) = set_obj r o' w.
Proof. unfold set_obj, with_objects. simpl. by rewrite insert_insert_eq. Qed.

Lemma own_plain k v o : all_plain o -> all_plain (own k v o).
Proof.
  intros H k' ik orig. unfold own. simpl.
  destruct (decide (k = k')) as [->|Hne].
  - by rewrite lookup_insert_eq.
  - rewrite lookup_insert_ne by done. apply H.
Qed.

Lemma bind_own_plain this o m : all_plain o -> all_plain (bind_own this o m).
Proof. intros H. unfold bind_own. destruct (lookup_value o m); try done. by apply own_plain. Qed.

Lemma filter_functions_plain n r names : forall w o,
  objects w !! r = Some o -> all_plain o ->
  filter_functions (S n) r names w
  = Ok (List.filter (fun p => is_function (lookup_value o p)) names) w.
Proof.
  induction names as [|p ps IH]; intros w o Ho Hp; [done|].
  simpl. unfold bind, js_get. rewrite (read_plain _ _ _ _ _ Ho (Hp p)).
  rewrite (IH _ _ Ho Hp). unfold ret. by destruct (is_function (lookup_value o p)).
Qed.

Lemma bind_own_function this o m p :
  is_function (lookup_value o p) = true ->
  is_function (lookup_value (bind_own this o m) p) = true.
Proof.
  intros H. unfold bind_own. destruct (lookup_value o m) eqn:E; try done.
  unfold lookup_value, own. simpl. destruct (decide (m = p)) as [->|Hne].
  - by rewrite lookup_insert_eq.
  - by rewrite lookup_insert_ne.
Qed.

Lemma bind_methods_plain n r names : forall w o,
  objects w !! r = Some o -> all_plain o ->
  Forall (fun p => is_function (lookup_value o p) = true) names ->
  forEach (bind_method (S n) r) names w
  = Ok tt (set_obj r (fold_left (bind_own r) names o) w).
Proof.
  induction names as [|m ms IH]; intros w o Ho Hp Hf.
  - simpl. unfold ret, set_obj, with_objects. destruct w. simpl in *.
    by rewrite insert_id.
  - inversion Hf as [|? ? Hm Hms]; subst. simpl.
    unfold bind at 1. unfold bind_method, bind at 1, js_get.
    rewrite (read_plain _ _ _ _ _ Ho (Hp m)).
    assert (Eb : bind_own r o m = own m (VFun (Bound
              match lookup_value o m with VFun g => g | _ => Native "" end r)) o).
    { unfold bind_own. by destruct (lookup_value o m). }
    destruct (lookup_value o m) as [| | | | | | | |g] eqn:Em; try discriminate.
    unfold js_set, bind. rewrite (write_plain _ _ _ _ _ _ Ho (Hp m)). unfold ret.
    rewrite (IH _ (own m (VFun (Bound g r)) o)).
    + rewrite set_obj_twice. simpl. by rewrite Eb.
    + apply set_obj_lookup.
    + by apply own_plain.
    + rewrite <- Eb. eapply Forall_impl; [exact Hms|]. intros p. apply bind_own_function.
Qed.

Lemma bind_all_plain this ms : forall o,
  all_plain o -> all_plain (fold_left (bind_own this) ms o).
Proof.
  induction ms as [|m ms IH]; intros o Hp; [done|]. simpl.
  by apply IH, bind_own_plain.
Qed.

Lemma field_initialisers_assigned n r fs : forall w o,
  objects w !! r = Some o -> all_plain o ->
  forEach (fun kv => js_set (S n) r (fst kv) (snd kv)) fs w
  = Ok tt (set_obj r (fold_left (fun o kv => own (fst kv) (snd kv) o) fs o) w).
Proof.
  induction fs as [|[k v] fs IH]; intros w o Ho Hp.
  - simpl. unfold ret, set_obj, with_objects. destruct w. simpl in *.
    by rewrite insert_id.
  - simpl. unfold bind at 1, js_set, bind at 1.
    rewrite (write_plain _ _ _ _ _ _ Ho (Hp k)). unfold ret.
    rewrite (IH _ (own k v o)); [| apply set_obj_lookup | by apply own_plain].
    by rewrite set_obj_twice.
Qed.

(** On a host that does not call back from [addController], [new] always
    returns: it allocates a fresh reference, registers the controller with
    the host once, and leaves the object [constructed]. *)
Lemma new_spec n C host element w :
  host ∉ connected w ->
  let this := fresh (dom (objects w)) in
  new (S n) C host element w
  = Ok this (set_obj this (constructed C this host element)
               (with_controllers (fun cs => cs ++ [(host, this)]) w)).
Proof.
  intros Hconn this. unfold new. fold this.
  set (o0 := {| o_class := C; o_props := ∅ |}).
  assert (Hp0 : all_plain o0) by (intros k ik orig; unfold o0; simpl; by rewrite lookup_empty).
  unfold bind at 1. unfold modify at 1. fold (set_obj this o0 w).
  unfold bind at 1. unfold LiteElement_constructor.
  unfold bind at 1. unfold modify at 1.
  rewrite (define_set _ _ _ _ o0) by apply set_obj_lookup. rewrite set_obj_twice.
  set (o1 := own "reactivePropertiesInitialized" (VBool false) o0).
  assert (Hp1 : all_plain o1) by (by apply own_plain).
  unfold bind at 1. unfold js_set at 1. unfold bind at 1.
  rewrite (write_plain _ _ _ _ _ o1) by (apply set_obj_lookup || apply Hp1).
  rewrite set_obj_twice. unfold ret at 1.
  set (o2 := own "host" (VHost host) o1).
  assert (Hp2 : all_plain o2) by (by apply own_plain).
  unfold bind at 1. unfold js_set at 1. unfold bind at 1.
  rewrite (write_plain _ _ _ _ _ o2) by (apply set_obj_lookup || apply Hp2).
  rewrite set_obj_twice. unfold ret at 1.
  set (o3 := own "element" (VElem element) o2).
  assert (Hp3 : all_plain o3) by (by apply own_plain).
  unfold bind at 1. unfold addController. unfold bind at 1. unfold modify at 1.
  change (with_controllers ?f (set_obj this o3 w))
    with (set_obj this o3 (with_controllers f w)).
  set (w' := with_controllers _ w).
  unfold bind at 1, gets.
  change (connected (set_obj this o3 w')) with (connected w).
  rewrite (bool_decide_eq_false_2 _ Hconn). unfold ret at 1.
  unfold bind at 1, getPrototypeOf. rewrite set_obj_lookup. simpl o_class.
  unfold bind at 1.
  rewrite (filter_functions_plain _ _ _ _ o3) by (apply set_obj_lookup || apply Hp3).
  rewrite (bind_methods_plain _ _ _ _ o3);
    [| apply set_obj_lookup | apply Hp3 | apply Forall_forall; intros p Hin;
       apply list_elem_of_In, filter_In in Hin; tauto].
  rewrite set_obj_twice. unfold bind at 1.
  erewrite field_initialisers_assigned;
    [| apply set_obj_lookup | by apply bind_all_plain].
  rewrite set_obj_twice. reflexivity.
Qed.

(** ** What runs inside a controller *)

Lemma bind_assoc {A B C} (m : M A) (k : A -> M B) (h : B -> M C) w :
  bind (bind m k) h w = bind m (fun a => bind (k a) h) w.
Proof. unfold bind. by destruct (m w). Qed.

Lemma modify_bind {B} f (k : unit -> M B) w : bind (modify f) k w = k tt (f w).
Proof. reflexivity. Qed.

Lemma final_Ok {A} (P : world -> Prop) (m : M A) w a w' :
  P (final (m w)) -> m w = Ok a w' -> P w'.
Proof. intros H E. by rewrite E in H. Qed.

Lemma forEach_final {A} (P : world -> Prop) (f : A -> M unit) l :
  (forall a w, P w -> P (final (f a w))) ->
  forall w, P w -> P (final (forEach f l w)).
Proof.
  intros Hf. induction l as [|x l IH]; intros w HP; [exact HP|]. simpl.
  apply final_bind; [by apply Hf|].
  intros u w1 E. apply IH. exact (final_Ok P _ _ _ _ (Hf x w HP) E).
Qed.

Arguments invoke : simpl never.

Lemma invoke_S n f this arg :
  invoke (S n) f this arg =
  match f with
  | Bound g r => invoke n g r arg
  | UserFn _ body => eval_template (S n) this body ;; ret tt
  | ClassCtor _ _ _ => throw TypeError
  | Native name =>
      if String.eqb name "hostConnected" || String.eqb name "hostUpdate" then
        hook (js_get (S n))
             (fun v t a => match v with
                           | VFun g => invoke n g t a
                           | _ => throw TypeError
                           end)
             this
      else if String.eqb name "initReactiveProperties" then
        initReactiveProperties (S n) this
      else if String.eqb name "update" then update (S n) this arg
      else throw TypeError
  end.
Proof. reflexivity. Qed.

Section internal.
(** [P] survives every change a controller makes to itself: defining a
    property, creating or updating a cell, requesting an update, and
    committing a render result. *)
Variable P : world -> Prop.
Hypothesis P_define : forall w r k p, P w -> P (define r k p w).
Hypothesis P_cells : forall w f, P w -> P (with_cells f w).
Hypothesis P_requests : forall w f, P w -> P (with_requests f w).
Hypothesis P_commits : forall w f, P w -> P (with_commits f w).

Lemma access_internal fuel r k a w : P w -> P (final (js_access fuel r k a w)).
Proof.
  intros HP. apply (access_invariant P (fun _ _ => True)); try done.
  intros w0 r0 k0 v o H _ _ _. by apply P_define.
Qed.

Lemma js_get_internal fuel r k w : P w -> P (final (js_get fuel r k w)).
Proof. apply access_internal. Qed.

Lemma js_set_internal fuel r k v w : P w -> P (final (js_set fuel r k v w)).
Proof.
  intros HP. unfold js_set. apply final_bind; [by apply access_internal|].
  intros u w1 E. simpl. exact (final_Ok P _ _ _ _ (access_internal _ _ _ _ _ HP) E).
Qed.

Lemma reactive_internal fuel r p w : P w -> P (final (reactive fuel r p w)).
Proof.
  intros HP. unfold reactive. apply final_bind; [by apply js_get_internal|].
  intros orig w1 E. simpl. apply P_define.
  exact (final_Ok P _ _ _ _ (js_get_internal _ _ _ _ HP) E).
Qed.

Lemma initReactiveProperties_internal fuel r w :
  P w -> P (final (initReactiveProperties fuel r w)).
Proof.
  intros HP. unfold initReactiveProperties.
  apply final_bind; [by apply js_get_internal|]. intros fl w1 E1.
  pose proof (final_Ok P _ _ _ _ (js_get_internal _ _ _ _ HP) E1) as HP1.
  destruct (negb (truthy fl)); [|exact HP1].
  apply final_bind; [by apply js_set_internal|]. intros u w2 E2.
  pose proof (final_Ok P _ _ _ _ (js_set_internal _ _ _ _ _ HP1) E2) as HP2.
  apply final_bind; [by apply js_get_internal|]. intros ctor w3 E3.
  pose proof (final_Ok P _ _ _ _ (js_get_internal _ _ _ _ HP2) E3) as HP3.
  destruct ctor as [| | | | | | | |f]; try exact HP3.
  destruct (static_properties false f) as [ps|]; [|exact HP3].
  apply forEach_final; [|exact HP3]. intros p w4. apply reactive_internal.
Qed.

Lemma eval_template_internal fuel r body w :
  P w -> P (final (eval_template fuel r body w)).
Proof.
  intros HP. apply (eval_template_invariant P (fun _ _ => True)); try done.
  intros w0 r0 k0 v o H _ _ _. by apply P_define.
Qed.

Lemma call_render_internal fuel r w : P w -> P (final (call_render fuel r w)).
Proof.
  intros HP. apply (call_render_invariant P (fun _ _ => True)); try done.
  intros w0 r0 k0 v o H _ _ _. by apply P_define.
Qed.

Lemma update_internal fuel r el w : P w -> P (final (update fuel r el w)).
Proof.
  intros HP. unfold update. apply final_bind; [by apply call_render_internal|].
  intros t w1 E. simpl. apply P_commits.
  exact (final_Ok P _ _ _ _ (call_render_internal _ _ _ HP) E).
Qed.

Lemma LiteElementHost_new_internal fuel r h w :
  P w -> P (final (LiteElementHost_new fuel r h w)).
Proof.
  intros HP. unfold LiteElementHost_new.
  apply final_bind; [by apply call_render_internal|].
  intros t w1 E. simpl. apply P_commits.
  exact (final_Ok P _ _ _ _ (call_render_internal _ _ _ HP) E).
Qed.

Lemma hook_internal (get : nat -> string -> M value)
    (call : value -> nat -> value -> M unit) this :
  (forall t k w, P w -> P (final (get t k w))) ->
  (forall v t a w, P w -> P (final (call v t a w))) ->
  forall w, P w -> P (final (hook get call this w)).
Proof.
  intros Hget Hcall w HP. unfold hook.
  apply final_bind; [by apply Hget|]. intros init w1 E1.
  pose proof (final_Ok P _ _ _ _ (Hget _ _ _ HP) E1) as HP1.
  apply final_bind; [by apply Hcall|]. intros u w2 E2.
  pose proof (final_Ok P _ _ _ _ (Hcall _ _ _ _ HP1) E2) as HP2.
  apply final_bind; [by apply Hget|]. intros upd w3 E3.
  pose proof (final_Ok P _ _ _ _ (Hget _ _ _ HP2) E3) as HP3.
  apply final_bind; [by apply Hget|]. intros el w4 E4.
  pose proof (final_Ok P _ _ _ _ (Hget _ _ _ HP3) E4) as HP4.
  by apply Hcall.
Qed.

Lemma invoke_internal fuel : forall f this arg w,
  P w -> P (final (invoke fuel f this arg w)).
Proof.
  induction fuel as [|n IH]; intros f this arg w HP; [exact HP|].
  rewrite invoke_S. destruct f as [name|nm body|nm ps sup|g r].
  - destruct (String.eqb name "hostConnected" || String.eqb name "hostUpdate").
    + apply hook_internal; [intros; by apply js_get_internal | | exact HP].
      intros v t a w0 HP0. destruct v; try exact HP0. by apply IH.
    + destruct (String.eqb name "initReactiveProperties");
        [by apply initReactiveProperties_internal|].
      destruct (String.eqb name "update"); [by apply update_internal | exact HP].
  - apply final_bind; [by apply eval_template_internal|].
    intros t w1 E. simpl. exact (final_Ok P _ _ _ _ (eval_template_internal _ _ _ _ HP) E).
  - exact HP.
  - by apply IH.
Qed.

Lemma call_internal fuel v this arg w : P w -> P (final (call fuel v this arg w)).
Proof. intros HP. destruct v; try exact HP. by apply invoke_internal. Qed.

Lemma hostUpdate_internal fuel this w : P w -> P (final (hostUpdate fuel this w)).
Proof.
  intros HP. apply hook_internal; [| | exact HP].
  - intros; by apply js_get_internal.
  - intros; by apply call_internal.
Qed.

Lemma filter_functions_internal fuel r names : forall w,
  P w -> P (final (filter_functions fuel r names w)).
Proof.
  induction names as [|p ps IH]; intros w HP; [exact HP|]. simpl.
  apply final_bind; [by apply js_get_internal|]. intros v w1 E1.
  pose proof (final_Ok P _ _ _ _ (js_get_internal _ _ _ _ HP) E1) as HP1.
  apply final_bind; [by apply IH|]. intros rest w2 E2. simpl.
  exact (final_Ok P _ _ _ _ (IH _ HP1) E2).
Qed.

Lemma bind_method_internal fuel r m w : P w -> P (final (bind_method fuel r m w)).
Proof.
  intros HP. unfold bind_method. apply final_bind; [by apply js_get_internal|].
  intros f w1 E1.
  pose proof (final_Ok P _ _ _ _ (js_get_internal _ _ _ _ HP) E1) as HP1.
  destruct f; try exact HP1. by apply js_set_internal.
Qed.

(** Everything [new] does after the controller has joined the host's
    controller set happens inside controllers. *)
Lemma new_internal n C host element w :
  let this := fresh (dom (objects w)) in
  P (allocated C this host element w) ->
  P (final (new (S n) C host element w)).
Proof.
  intros this HP. unfold new. fold this.
  set (o0 := {| o_class := C; o_props := ∅ |}).
  assert (Hp0 : all_plain o0) by (intros k ik orig; unfold o0; simpl; by rewrite lookup_empty).
  rewrite modify_bind. fold (set_obj this o0 w).
  assert (Hctor : P (final (LiteElement_constructor (S n) this host element
                             (set_obj this o0 w)))).
  { unfold LiteElement_constructor. rewrite modify_bind.
    rewrite (define_set _ _ _ _ o0) by apply set_obj_lookup. rewrite set_obj_twice.
    set (o1 := own "reactivePropertiesInitialized" (VBool false) o0).
    assert (Hp1 : all_plain o1) by (by apply own_plain).
    unfold bind at 1. unfold js_set at 1. unfold bind at 1.
    rewrite (write_plain _ _ _ _ _ o1) by (apply set_obj_lookup || apply Hp1).
    rewrite set_obj_twice. unfold ret at 1.
    set (o2 := own "host" (VHost host) o1).
    assert (Hp2 : all_plain o2) by (by apply own_plain).
    unfold bind at 1. unfold js_set at 1. unfold bind at 1.
    rewrite (write_plain _ _ _ _ _ o2) by (apply set_obj_lookup || apply Hp2).
    rewrite set_obj_twice. unfold ret at 1.
    unfold addController. rewrite bind_assoc, modify_bind.
    change (with_controllers _ (set_obj this (own "element" (VElem element) o2) w))
      with (allocated C this host element w).
    set (wa := allocated C this host element w) in *.
    apply final_bind.
    - unfold bind at 1, gets. destruct (bool_decide (host ∈ connected wa)); [|exact HP].
      apply final_bind; [by apply js_get_internal|]. intros f w1 E1.
      pose proof (final_Ok P _ _ _ _ (js_get_internal _ _ _ _ HP) E1) as HP1.
      destruct f; try exact HP1; by apply call_internal.
    - intros u w1 E1.
      assert (HP1 : P w1).
      { revert E1. unfold bind at 1, gets.
        destruct (bool_decide (host ∈ connected wa));
          [|unfold ret; intros Er; inversion Er; subst; exact HP].
        intros E1. unfold bind in E1.
        pose proof (js_get_internal (S n) this "hostConnected" wa HP) as Hg.
        destruct (js_get (S n) this "hostConnected" wa) as [f w0|]; [|done].
        simpl in Hg.
        destruct f;
          try (unfold ret in E1; inversion E1; subst; exact Hg);
          exact (final_Ok P _ _ _ _ (call_internal _ _ _ _ _ Hg) E1). }
      unfold bind at 1, getPrototypeOf. destruct (objects w1 !! this); [|exact HP1].
      apply final_bind; [by apply filter_functions_internal|]. intros ms w2 E2.
      pose proof (final_Ok P _ _ _ _ (filter_functions_internal _ _ _ _ HP1) E2) as HP2.
      apply forEach_final; [|exact HP2]. intros m w3. apply bind_method_internal. }
  apply final_bind; [exact Hctor|]. intros u w1 E1.
  pose proof (final_Ok P _ _ _ _ Hctor E1) as HP1.
  assert (Hfields : P (final (forEach (fun kv => js_set (S n) this (fst kv) (snd kv))
                                (field_initialisers C) w1))).
  { apply forEach_final; [|exact HP1]. intros kv w0. apply js_set_internal. }
  apply final_bind; [exact Hfields|]. intros u' w2 E2. simpl.
  exact (final_Ok P _ _ _ _ Hfields E2).
Qed.
End internal.

(** ** The discovery pass *)

Lemma no_instantiation_refl w : no_instantiation w w.
Proof. by repeat split. Qed.

Lemma no_instantiation_define w0 w r k p :
  no_instantiation w0 w -> no_instantiation w0 (define r k p w).
Proof.
  intros (Hd & Hc & Hi & Hr). repeat split; try done.
  unfold define. simpl. by rewrite dom_alter_L.
Qed.

(** Rendering a controller into its element constructs nothing. *)
Lemma render_no_instantiation fuel r h w0 w :
  no_instantiation w0 w ->
  no_instantiation w0 (final (LiteElementHost_new fuel r h w)).
Proof.
  intros H. unfold LiteElementHost_new. apply final_bind.
  - apply (call_render_invariant (no_instantiation w0) (fun _ _ => True)); try done.
    intros. by apply no_instantiation_define.
  - intros result w1 E. simpl.
    change w1 with (final (Ok result w1)). rewrite <- E.
    apply (call_render_invariant (no_instantiation w0) (fun _ _ => True)); try done.
    intros. by apply no_instantiation_define.
Qed.

Lemma instance_of_define c C w r k p :
  instance_of c C w -> instance_of c C (define r k p w).
Proof.
  intros (o & Ho & HC). destruct (decide (r = c)) as [->|Hne].
  - eexists. split; [by apply define_objects|]. done.
  - exists o. by rewrite define_objects_ne.
Qed.

Lemma render_instance_of fuel r h c C w :
  instance_of c C w -> instance_of c C (final (LiteElementHost_new fuel r h w)).
Proof.
  intros H. unfold LiteElementHost_new. apply final_bind.
  - apply (call_render_invariant (instance_of c C) (fun _ _ => True)); try done.
    intros. by apply instance_of_define.
  - intros result w1 E. simpl.
    change w1 with (final (Ok result w1)). rewrite <- E.
    apply (call_render_invariant (instance_of c C) (fun _ _ => True)); try done.
    intros. by apply instance_of_define.
Qed.

Lemma constructed_class C this host element :
  o_class (constructed C this host element) = C.
Proof.
  unfold constructed.
  set (f := fun o kv => own (fst kv) (snd kv) o).
  assert (Hf : forall fs o, o_class (fold_left f fs o) = o_class o).
  { induction fs as [|kv fs IH]; intros o; [done|]. simpl. by rewrite IH. }
  assert (Hb : forall ms o, o_class (fold_left (bind_own this) ms o) = o_class o).
  { induction ms as [|m ms IH]; intros o; [done|]. simpl. rewrite IH.
    unfold bind_own. by destruct (lookup_value o m). }
  by rewrite Hf, Hb.
Qed.

Lemma truthy_name name : truthy (VStr name) = true <-> name <> "".
Proof.
  simpl. destruct (String.eqb_spec name ""); split; intros; try done.
Qed.

(** What the pass does for an element that can be mounted. *)
Lemma mount_registered fuel this e name C w :
  el_html e = true -> el_lite e = Some name -> name <> "" ->
  liteElementsMap w !! name = Some C ->
  mount fuel this e w
  = (do liteElementInstance <- instance_for fuel this C (el_id e);
     LiteElementHost_new fuel liteElementInstance (el_id e)) w.
Proof.
  intros Hh Hl Hn HC. unfold mount. rewrite Hh, Hl.
  apply truthy_name in Hn. rewrite Hn.
  unfold bind at 1, gets. by rewrite HC.
Qed.


(** The same happens to an [HTMLElement] whose marker is the empty string,
    even when the empty string is a registered name. *)
Example empty_marker_not_mounted :
  let w := final (lite [("", Counter)] empty_world) in
  liteElementsMap w !! "" = Some Counter /\
  updateContent 3 7 (Some [marker 1 ""]) w = Ok tt w.
Proof. split; vm_compute; reflexivity. Qed.

(** A step that finds an associated controller constructs nothing. *)
Lemma mount_existing n this e name C w r :
  el_html e = true -> el_lite e = Some name -> name <> "" ->
  liteElementsMap w !! name = Some C ->
  liteElementsInstancesMap w !! el_id e = Some r ->
  no_instantiation w (final (mount (S n) this e w)).
Proof.
  intros Hh Hl Hn HC Hi.
  rewrite (mount_registered _ _ _ _ _ _ Hh Hl Hn HC).
  unfold bind at 1, instance_for, bind at 1, gets. rewrite Hi.
  apply render_no_instantiation, no_instantiation_refl.
Qed.

(** *** Changes inside controllers *)

Lemma inside_refl w : inside w w.
Proof. split; [done|]. split; [eauto|]. by repeat split. Qed.

Lemma inside_trans w1 w2 w3 : inside w1 w2 -> inside w2 w3 -> inside w1 w3.
Proof.
  intros (Hd & Ho & Hc & Hr & Hi & Hn) (Hd' & Ho' & Hc' & Hr' & Hi' & Hn').
  split; [congruence|]. split.
  - intros r o H. destruct (Ho r o H) as (o1 & H1 & E1).
    destruct (Ho' r o1 H1) as (o2 & H2 & E2). exists o2. split; [done|congruence].
  - repeat split; congruence.
Qed.

Lemma inside_define w0 w r k p : inside w0 w -> inside w0 (define r k p w).
Proof.
  intros (Hd & Ho & Hc & Hr & Hi & Hn).
  split; [unfold define; simpl; by rewrite dom_alter_L|]. split; [|by repeat split].
  intros r0 o0 H0. destruct (Ho r0 o0 H0) as (o1 & H1 & E1).
  destruct (decide (r = r0)) as [->|Hne].
  - eexists. split; [by apply define_objects|]. done.
  - exists o1. by rewrite define_objects_ne.
Qed.

Lemma inside_with_instances f w0 w :
  inside w0 w -> inside (with_instances f w0) (with_instances f w).
Proof.
  intros (Hd & Ho & Hc & Hr & Hi & Hn). split; [done|]. split; [done|].
  split; [done|]. split; [done|]. split; [simpl; by rewrite Hi | done].
Qed.

Lemma new_inside n C host element w :
  let this := fresh (dom (objects w)) in
  inside (allocated C this host element w) (final (new (S n) C host element w)).
Proof.
  intros this.
  apply (new_internal (inside (allocated C this host element w))); try done.
  - intros. by apply inside_define.
  - apply inside_refl.
Qed.

Lemma new_returns fuel C host element w r w' :
  new fuel C host element w = Ok r w' -> r = fresh (dom (objects w)).
Proof.
  unfold new, bind, modify, ret.
  destruct (LiteElement_constructor _ _ _ _ _); [|done].
  destruct (forEach _ _ _); [|done]. by intros [= <- _].
Qed.

Lemma LiteElementHost_new_inside fuel r h w :
  inside w (final (LiteElementHost_new fuel r h w)).
Proof.
  apply (LiteElementHost_new_internal (inside w)); try done.
  - intros. by apply inside_define.
  - apply inside_refl.
Qed.

(** What [inside] says about a state that comes from an allocation. *)
Lemma allocated_inside C r host element f w w' :
  r ∉ dom (objects w) ->
  inside (with_instances f (allocated C r host element w)) w' ->
  dom (objects w') = {[r]} ∪ dom (objects w) /\
  instance_of r C w' /\
  (forall c D, instance_of c D w -> instance_of c D w') /\
  controllers w' = controllers w ++ [(host, r)] /\
  liteElementsMap w' = liteElementsMap w /\
  liteElementsInstancesMap w' = f (liteElementsInstancesMap w) /\
  connected w' = connected w.
Proof.
  intros Hfresh (Hd & Ho & Hc & Hr & Hi & Hn). simpl in *.
  split; [by rewrite Hd, dom_insert_L|]. split.
  - destruct (Ho r _ (lookup_insert_eq _ _ _)) as (o' & Ho' & Hcl). by exists o'.
  - split; [|done]. intros c D (o & Hoc & HD).
    destruct (Ho c o) as (o' & Ho' & Hcl).
    + rewrite lookup_insert_ne; [done|]. intros ->. apply Hfresh. by eapply elem_of_dom_2.
    + exists o'. split; [done|congruence].
Qed.

(** A step that finds no controller runs the constructor at a fresh
    reference.  If the constructor returns, the association is recorded
    and the controller rendered; if it throws, so does the step, and
    nothing is recorded. *)
Lemma mount_fresh_any n this e name C w :
  el_html e = true -> el_lite e = Some name -> name <> "" ->
  liteElementsMap w !! name = Some C ->
  liteElementsInstancesMap w !! el_id e = None ->
  let r := fresh (dom (objects w)) in
  let wa := allocated C r this (el_id e) w in
  match new (S n) C this (el_id e) w with
  | Ok _ w1 =>
      mount (S n) this e w
      = LiteElementHost_new (S n) r (el_id e) (with_instances <[el_id e := r]> w1) /\
      inside (with_instances <[el_id e := r]> wa) (final (mount (S n) this e w))
  | Throw err wt =>
      mount (S n) this e w = Throw err wt /\
      inside (with_instances (fun m => m) wa) wt
  end.
Proof.
  intros Hh Hl Hn HC Hi r wa.
  pose proof (new_inside n C this (el_id e) w) as Hin. fold r in Hin. fold wa in Hin.
  assert (Em : mount (S n) this e w
               = (do liteElementInstance <- new (S n) C this (el_id e);
                  modify (with_instances <[el_id e := liteElementInstance]>) ;;
                  LiteElementHost_new (S n) liteElementInstance (el_id e)) w).
  { rewrite (mount_registered _ _ _ _ _ _ Hh Hl Hn HC).
    unfold bind at 1, instance_for, bind at 1, gets. rewrite Hi.
    unfold bind. by destruct (new (S n) C this (el_id e) w). }
  destruct (new (S n) C this (el_id e) w) as [r' w1|err wt] eqn:E; simpl in Hin.
  - assert (r' = r) as -> by (by eapply new_returns).
    assert (Em' : mount (S n) this e w
                  = LiteElementHost_new (S n) r (el_id e)
                      (with_instances <[el_id e := r]> w1)).
    { rewrite Em. unfold bind at 1. by rewrite E. }
    split; [exact Em'|]. rewrite Em'.
    eapply inside_trans; [apply inside_with_instances, Hin|].
    apply LiteElementHost_new_inside.
  - split; [|exact Hin]. rewrite Em. unfold bind at 1. by rewrite E.
Qed.




(** On a connected host the constructor runs [hostConnected] from inside
    [addController].  For [Broken], whose [render] is missing, it throws
    there: the step throws, the element stays without a controller, and
    the next step constructs another one. *)
Example throwing_constructor_not_recorded :
  let e := marker 1 "broken" in
  let w := connect 7 broken_registered in
  let w1 := final (mount 3 7 e w) in
  let w2 := final (mount 3 7 e w1) in
  mount 3 7 e w = Throw TypeError w1 /\
  liteElementsInstancesMap w1 !! 1 = None /\ controllers w1 = [(7, 0)] /\
  liteElementsInstancesMap w2 !! 1 = None /\ controllers w2 = [(7, 0); (7, 1)].
Proof. repeat split; vm_compute; reflexivity. Qed.

(** The association made by the first step is the one the next step finds:
    mounting the counter twice keeps controller 0. *)
Example counter_mounted_twice :
  let e := marker 1 "counter" in
  let w1 := final (mount 3 7 e registered) in
  let w2 := final (mount 3 7 e w1) in
  liteElementsInstancesMap w1 !! 1 = Some 0 /\
  liteElementsInstancesMap w2 !! 1 = Some 0 /\
  controllers w2 = [(7, 0)] /\
  commits w2 = [(VElem 1, [VStr "count="; VNum 0]); (VElem 1, [VStr "count="; VNum 0])].
Proof. repeat split; vm_compute; reflexivity. Qed.

(** ** Elements the pass skips (C4, C10) *)

Lemma forEach_app {A} (f : A -> M unit) l1 l2 w :
  forEach f (l1 ++ l2) w = (forEach f l1 ;; forEach f l2) w.
Proof.
  revert w. induction l1 as [|x l1 IH]; intros w; simpl.
  - reflexivity.
  - unfold bind. destruct (f x w) as [u w1|err w1]; [|reflexivity]. apply IH.
Qed.

Lemma mountable_registered w e :
  mountable w e = true ->
  exists name C, el_html e = true /\ el_lite e = Some name /\ name <> "" /\
                 liteElementsMap w !! name = Some C.
Proof.
  unfold mountable. destruct (el_html e); [|done]. destruct (el_lite e) as [name|]; [|done].
  destruct (truthy (VStr name)) eqn:Ht; [|done].
  destruct (liteElementsMap w !! name) as [C|] eqn:HC; [|done].
  intros _. exists name, C. repeat split; try done. by apply truthy_name.
Qed.

Lemma not_mountable_skipped fuel this w e :
  mountable w e = false -> mount fuel this e w = Ok tt w.
Proof.
  unfold mountable, mount. destruct (el_html e); [|done].
  destruct (el_lite e) as [name|]; [|done].
  destruct (truthy (VStr name)); [|done]. unfold bind, gets.
  by destruct (liteElementsMap w !! name).
Qed.

Lemma keeps_refl w : keeps w w.
Proof. by repeat split. Qed.


Lemma inside_keeps w w' : inside w w' -> keeps w w'.
Proof.
  intros (Hd & Ho & Hc & Hr & Hi & Hn). split; [by rewrite Hd|]. split.
  - intros c C (o & Hoc & HC). destruct (Ho c o Hoc) as (o' & Ho' & E).
    exists o'. split; [done|congruence].
  - split; [by rewrite Hi|]. by split.
Qed.

(** One step of the pass, whatever the element, the class and the host:
    it keeps what was there, and touches no association but that of its
    element. *)
Lemma mount_keeps n this e w :
  let w' := final (mount (S n) this e w) in
  keeps w w' /\
  forall id, id <> el_id e ->
    liteElementsInstancesMap w' !! id = liteElementsInstancesMap w !! id.
Proof.
  cbv zeta. destruct (mountable w e) eqn:Hm.
  2:{ rewrite (not_mountable_skipped _ _ _ _ Hm). split; [apply keeps_refl|done]. }
  destruct (mountable_registered _ _ Hm) as (name & C & Hh & Hl & Hn & HC).
  destruct (liteElementsInstancesMap w !! el_id e) as [r|] eqn:Hi.
  - assert (Hin : inside w (final (mount (S n) this e w))).
    { rewrite (mount_registered _ _ _ _ _ _ Hh Hl Hn HC).
      unfold bind at 1, instance_for, bind at 1, gets. rewrite Hi.
      apply LiteElementHost_new_inside. }
    split; [by apply inside_keeps|]. intros id _.
    destruct Hin as (_ & _ & _ & _ & -> & _). done.
  - pose proof (mount_fresh_any n this e name C w Hh Hl Hn HC Hi) as Hf.
    cbv zeta in Hf.
    assert (Hfresh : fresh (dom (objects w)) ∉ dom (objects w)) by apply is_fresh.
    assert (Hany : exists f,
              inside (with_instances f
                        (allocated C (fresh (dom (objects w))) this (el_id e) w))
                     (final (mount (S n) this e w)) /\
              (f = (fun m => m) \/ f = <[el_id e := fresh (dom (objects w))]>)).
    { destruct (new (S n) C this (el_id e) w) as [r' w1|err wt].
      - destruct Hf as [_ Hin]. eexists. split; [exact Hin|by right].
      - destruct Hf as [Em Hin]. rewrite Em. eexists. split; [exact Hin|by left]. }
    destruct Hany as (f & Hin & Hf').
    destruct (allocated_inside _ _ _ _ _ _ _ Hfresh Hin)
      as (H1 & H2 & H3 & H4 & H5 & H6 & H7).
    split.
    + split; [rewrite H1; apply union_subseteq_r|]. split; [exact H3|]. split; [|by split].
      intros id r Hid. rewrite H6. destruct Hf' as [->| ->]; [done|].
      rewrite lookup_insert_ne; [done|]. intros Heq. subst id. congruence.
    + intros id Hne. rewrite H6. destruct Hf' as [->| ->]; [done|].
      by rewrite lookup_insert_ne.
Qed.


Lemma mount_keeps_registry n this e w :
  liteElementsMap (final (mount (S n) this e w)) = liteElementsMap w.
Proof. by destruct (mount_keeps n this e w) as [(_ & _ & _ & H & _) _]. Qed.

Lemma forEach_mount_keeps_registry n this l : forall w,
  liteElementsMap (final (forEach (mount (S n) this) l w)) = liteElementsMap w.
Proof.
  induction l as [|e l IH]; intros w; [done|]. simpl. unfold bind.
  pose proof (mount_keeps_registry n this e w) as H.
  destruct (mount (S n) this e w) as [u w1|err w1]; simpl in *; [|done].
  by rewrite IH.
Qed.

(** A pass in which [e] is a no-op behaves as the pass without [e]. *)
Lemma skipped_in_pass n this e l1 l2 w :
  (forall w', liteElementsMap w' = liteElementsMap w -> mount (S n) this e w' = Ok tt w') ->
  updateContent (S n) this (Some (l1 ++ e :: l2)) w
  = forEach (mount (S n) this) (l1 ++ l2) w.
Proof.
  intros Hskip. unfold updateContent.
  replace (negb (length (l1 ++ e :: l2) =? 0)%nat) with true
    by (rewrite length_app; simpl; symmetry; apply negb_true_iff, Nat.eqb_neq; lia).
  rewrite !forEach_app. unfold bind at 1 2.
  pose proof (forEach_mount_keeps_registry n this l1 w) as Hr.
  destruct (forEach (mount (S n) this) l1 w) as [u w1|err w1]; [|done].
  simpl in Hr. simpl. unfold bind. by rewrite (Hskip w1 Hr).
Qed.

(** C4: an element whose marker name has no registered constructor is
    skipped silently.  The step for it returns normally and leaves the
    whole state as it was (no controller, no association, no commit), and a
    discovery pass over a subtree containing it runs exactly as the pass
    over the other elements. *)
Theorem unregistered_marker_skipped n this e name w :
  el_lite e = Some name ->
  liteElementsMap w !! name = None ->
  mount (S n) this e w = Ok tt w /\
  forall l1 l2,
    updateContent (S n) this (Some (l1 ++ e :: l2)) w
    = forEach (mount (S n) this) (l1 ++ l2) w.
Proof.
  intros Hl Hr.
  assert (Hskip : forall w', liteElementsMap w' = liteElementsMap w ->
                             mount (S n) this e w' = Ok tt w').
  { intros w' E. unfold mount. rewrite Hl. destruct (el_html e); [|done].
    destruct (truthy (VStr name)); [|done]. unfold bind, gets. by rewrite E, Hr. }
  split; [by apply Hskip|]. intros l1 l2. by apply skipped_in_pass.
Qed.

Lemma unregistered_marker_skipped_witness :
  mount 3 7 (marker 2 "countre") registered = Ok tt registered /\
  forall l1 l2,
    updateContent 3 7 (Some (l1 ++ marker 2 "countre" :: l2)) registered
    = forEach (mount 3 7) (l1 ++ l2) registered.
Proof.
  apply (unregistered_marker_skipped 2 7 (marker 2 "countre") "countre" registered).
  - reflexivity.
  - vm_compute. reflexivity.
Defined.

(** C10: an element whose marker attribute is the empty string is always
    skipped, whatever the registry holds, hence also when the empty string
    is a registered name: the step returns normally and changes nothing,
    and a pass containing the element runs as the pass without it. *)
Theorem empty_marker_skipped n this e w :
  el_lite e = Some "" ->
  mount (S n) this e w = Ok tt w /\
  forall l1 l2,
    updateContent (S n) this (Some (l1 ++ e :: l2)) w
    = forEach (mount (S n) this) (l1 ++ l2) w.
Proof.
  intros Hl.
  assert (Hskip : forall w', mount (S n) this e w' = Ok tt w').
  { intros w'. unfold mount. rewrite Hl. by destruct (el_html e). }
  split; [apply Hskip|]. intros l1 l2. apply skipped_in_pass. intros w' _. apply Hskip.
Qed.

Lemma empty_marker_skipped_witness :
  let w := final (lite [("", Counter)] empty_world) in
  mount 3 7 (marker 1 "") w = Ok tt w /\
  forall l1 l2,
    updateContent 3 7 (Some (l1 ++ marker 1 "" :: l2)) w
    = forEach (mount 3 7) (l1 ++ l2) w.
Proof.
  apply (empty_marker_skipped 2 7 (marker 1 "")). reflexivity.
Defined.

(** ** Registration (C7) *)

Lemma lite_spec elements : forall w,
  lite elements w
  = Ok tt (with_registry
             (fun m => fold_left (fun m nc => <[fst nc := snd nc]> m) elements m) w).
Proof.
  induction elements as [|[name C] elements IH]; intros w.
  - by destruct w.
  - unfold lite in *. simpl. unfold bind, modify. by rewrite IH.
Qed.

(** After the registration loop a name maps to the constructor of its last
    entry in the list, or to what it mapped to before. *)
Lemma registry_last_wins (elements : list (string * class)) name (m : gmap string class) :
  fold_left (fun m nc => <[fst nc := snd nc]> m) elements m !! name
  = match assoc name (rev elements) with
    | Some C => Some C
    | None => m !! name
    end.
Proof.
  induction elements as [|[name' C'] elements IH] using rev_ind; [done|].
  rewrite fold_left_app, rev_app_distr. simpl.
  destruct (String.eqb_spec name name') as [->|Hne].
  - apply lookup_insert_eq.
  - by rewrite lookup_insert_ne.
Qed.





(** Registering [Clock] over [Counter]: the next pass builds a clock. *)
Example clock_replaces_counter :
  let w := final ((lite [("counter", Counter)] ;; lite [("counter", Clock)] ;;
                   updateContent 3 7 (Some [marker 1 "counter"])) empty_world) in
  liteElementsMap registered !! "counter" = Some Counter /\
  liteElementsMap w !! "counter" = Some Clock /\
  commits w = [(VElem 1, [VStr "ticks="; VNum 0])].
Proof. repeat split; vm_compute; reflexivity. Qed.

(** ** Running the pass twice (C3) *)

Lemma object_grows_refl o : object_grows o o.
Proof. split; [done|]. split; [done|]. intros k Hk. by left. Qed.

Lemma grows_refl w : grows w w.
Proof. split; [|done]. intros r o Ho. exists o. split; [done|]. apply object_grows_refl. Qed.

Lemma object_grows_trans o1 o2 o3 :
  object_grows o1 o2 -> object_grows o2 o3 -> object_grows o1 o3.
Proof.
  intros (Hc1 & Hp1 & Hn1) (Hc2 & Hp2 & Hn2).
  split; [congruence|]. split; [auto|].
  intros k Hk. destruct (Hn1 k Hk) as [H1|(Hpr & l & Hl)].
  - destruct (Hn2 k H1) as [H2|(Hpr' & l' & Hl')]; [by left|].
    right. split; [congruence | eauto].
  - right. split; [done|]. exists l. auto.
Qed.

Lemma grows_trans w1 w2 w3 : grows w1 w2 -> grows w2 w3 -> grows w1 w3.
Proof.
  intros (Ho1 & Hc1) (Ho2 & Hc2). split; [|auto].
  intros r o Ho. destruct (Ho1 r o Ho) as (o' & Ho' & Hg).
  destruct (Ho2 r o' Ho') as (o'' & Ho'' & Hg'). exists o''. split; [done|].
  by eapply object_grows_trans.
Qed.

Lemma quiet_refl w : quiet w w.
Proof. split; [apply no_instantiation_refl | done]. Qed.

Lemma quiet_trans w1 w2 w3 : quiet w1 w2 -> quiet w2 w3 -> quiet w1 w3.
Proof.
  intros ((Hd & Hc & Hi & Hr) & Hq & Hm) ((Hd' & Hc' & Hi' & Hr') & Hq' & Hm').
  repeat split; congruence.
Qed.

Lemma peek_grows w w' r k v :
  grows w w' -> peek w r k = Some v ->
  exists v', peek w' r k = Some v' /\ (v <> VUndefined -> v' = v).
Proof.
  intros (Hobj & Hcs). unfold peek.
  destruct (objects w !! r) as [o|] eqn:Ho; [|done].
  destruct (Hobj r o Ho) as (o' & -> & Hc & Hp & Hn).
  destruct (o_props o !! k) as [[v0|ik orig]|] eqn:Hk.
  - intros [= <-]. rewrite (Hp _ _ Hk). eauto.
  - rewrite (Hp _ _ Hk).
    destruct (o_props o !! ik) as [[[]|]|] eqn:Hik; try done.
    rewrite (Hp _ _ Hik). intros Hv.
    destruct (cells w !! l) as [c|] eqn:Hl; [|done]. rewrite (Hcs _ _ Hl). eauto.
  - intros [= <-]. destruct (Hn k Hk) as [H1|(Hpr & l & Hl)].
    + rewrite H1, Hc. eauto.
    + rewrite Hl, Hpr. simpl. eexists. split; [done|]. done.
Qed.



Lemma peek_get n r k w v :
  peek w r k = Some v -> js_get (S (S n)) r k w = Ok v w.
Proof.
  unfold peek. destruct (objects w !! r) as [o|] eqn:Ho; [|done].
  destruct (o_props o !! k) as [[v0|ik orig]|] eqn:Hk.
  - intros [= <-]. by apply (read_data (S n) r k w o).
  - destruct (o_props o !! ik) as [[[]|]|] eqn:Hik; try done.
    destruct (cells w !! l) as [c|] eqn:Hl; [|done]. intros [= <-].
    by eapply getter_reads.
  - intros [= <-]. by apply (read_absent (S n) r k w o).
Qed.

Lemma peek_template_eval n r body w : forall t,
  peek_template w r body = Some t ->
  eval_template (S (S n)) r body w = Ok t w.
Proof.
  induction body as [|[s|k] body IH]; intros t; simpl.
  - by intros [= <-].
  - destruct (peek_template w r body) as [rest|]; [|done].
    intros [= <-]. unfold bind. by rewrite (IH rest).
  - destruct (peek w r k) as [v|] eqn:Hv; [|done].
    destruct (peek_template w r body) as [rest|]; [|done].
    intros [= <-]. unfold bind. rewrite (peek_get _ _ _ _ _ Hv).
    by rewrite (IH rest).
Qed.

Lemma call_method_target fuel f : forall this t body,
  render_target f this = Some (t, body) ->
  call_method fuel f this = eval_template fuel t body.
Proof.
  induction f as [| nm bd | |g IH r]; intros this t body; simpl; try done.
  - by intros [= <- <-].
  - apply IH.
Qed.

Lemma call_method_Ok fuel f : forall this w t w',
  call_method fuel f this w = Ok t w' -> is_Some (render_target f this).
Proof.
  induction f as [| | |g IH r]; intros this w t w'; simpl; try done.
  apply IH.
Qed.

(** When [render_result] is defined, [render()] returns it and leaves the
    state as it is. *)
Lemma render_result_call n r w t :
  render_result w r = Some t -> call_render (S (S n)) r w = Ok t w.
Proof.
  unfold render_result, call_render.
  destruct (peek w r "render") as [[| | | | | | | |f]|] eqn:Hv; try done.
  destruct (render_target f r) as [[this body]|] eqn:Ht; [|done].
  intros Hp. unfold bind. rewrite (peek_get _ _ _ _ _ Hv).
  rewrite (call_method_target _ _ _ _ _ Ht). by apply peek_template_eval.
Qed.

Lemma getter_creates_plain n r k w o ik orig :
  objects w !! r = Some o ->
  o_props o !! k = Some (Accessor ik orig) ->
  plain_at o "host" ->
  slot_absent o ik ->
  let l := fresh (dom (cells w)) in
  js_get (S (S n)) r k w
  = Ok orig (set_obj r (own ik (VCell l) o)
               (with_cells <[l := {| rp_host := lookup_value o "host";
                                     rp_value := orig |}]> w)).
Proof.
  intros Ho Hk Hh [Hik Hp] l. unfold js_get. rewrite js_access_S, Ho, Hk.
  unfold getter, bind.
  rewrite (read_absent _ _ _ _ _ Ho Hik), Hp. simpl.
  rewrite (read_plain _ _ _ _ _ Ho Hh).
  unfold ReactiveProperty_new. fold l.
  erewrite write_absent by (simpl; eauto). unfold ret.
  erewrite define_set by (simpl; eauto).
  erewrite read_data; [| apply set_obj_lookup | simpl; apply lookup_insert_eq].
  unfold ReactiveProperty_get. simpl. by rewrite lookup_insert_eq.
Qed.

(** Filling the backing slot [ik] of [r] keeps the state well formed. *)
Lemma fill_well_formed w r o ik c :
  well_formed w -> objects w !! r = Some o -> slot_absent o ik ->
  let l := fresh (dom (cells w)) in
  let w' := set_obj r (own ik (VCell l) o) (with_cells <[l := c]> w) in
  well_formed w' /\ grows w w' /\ quiet w w'.
Proof.
  intros Hwf Ho [Hik Hpr] l w'.
  assert (Hfresh : cells w !! l = None) by (apply not_elem_of_dom, is_fresh).
  assert (Hcs : forall l' c', cells w !! l' = Some c' -> cells w' !! l' = Some c').
  { intros l' c' Hl'. simpl. rewrite lookup_insert_ne; [done|]. intros ->. congruence. }
  assert (Hgo : object_grows o (own ik (VCell l) o)).
  { split; [done|]. split.
    - intros k p Hk. simpl. rewrite lookup_insert_ne; [done|]. intros ->. congruence.
    - intros k Hk. simpl. destruct (decide (ik = k)) as [->|Hne].
      + right. split; [done|]. exists l. apply lookup_insert_eq.
      + left. by rewrite lookup_insert_ne. }
  split; [|split].
  - intros r' o' Ho'. unfold w', set_obj in Ho'. simpl in Ho'.
    destruct (decide (r = r')) as [->|Hne].
    + rewrite lookup_insert_eq in Ho'. injection Ho' as <-.
      destruct (Hwf _ _ Ho) as [Hh Hacc]. split.
      * intros ik' orig'. simpl. destruct (decide (ik = "host")) as [->|Hne].
        -- by rewrite lookup_insert_eq.
        -- rewrite lookup_insert_ne by done. apply Hh.
      * intros k ik' orig'. simpl. intros Hk.
        assert (Hk' : o_props o !! k = Some (Accessor ik' orig')).
        { destruct (decide (ik = k)) as [->|Hne].
          - by rewrite lookup_insert_eq in Hk.
          - by rewrite lookup_insert_ne in Hk. }
        destruct (decide (ik = ik')) as [<-|Hne].
        -- right. exists l. rewrite !lookup_insert_eq. eauto.
        -- rewrite lookup_insert_ne by done.
           destruct (Hacc _ _ _ Hk') as [[Ha Hb]|(l' & Hl' & [c' Hc'])].
           ++ left. split; [|done]. simpl. by rewrite lookup_insert_ne.
           ++ right. exists l'. split; [done|]. exists c'. by apply Hcs.
    + rewrite lookup_insert_ne in Ho' by done.
      destruct (Hwf _ _ Ho') as [Hh Hacc]. split; [done|].
      intros k ik' orig' Hk. destruct (Hacc _ _ _ Hk) as [Habs|(l' & Hl' & [c' Hc'])].
      * by left.
      * right. exists l'. split; [done|]. exists c'. by apply Hcs.
  - split; [|exact Hcs]. intros r' o' Ho'. unfold w', set_obj. simpl.
    destruct (decide (r = r')) as [->|Hne].
    + rewrite lookup_insert_eq. rewrite Ho in Ho'. injection Ho' as <-. eauto.
    + rewrite lookup_insert_ne by done. exists o'. split; [done|]. apply object_grows_refl.
  - repeat split; try done. unfold w', set_obj. simpl. rewrite dom_insert_L.
    apply elem_of_dom_2 in Ho. apply subseteq_union_1_L. by apply singleton_subseteq_l.
Qed.

(** A read on a well-formed state returns, fills at most one backing slot,
    and can afterwards be repeated without any effect. *)
Lemma get_well_formed n r k w v w' :
  well_formed w -> js_get (S (S n)) r k w = Ok v w' ->
  well_formed w' /\ grows w w' /\ quiet w w' /\ peek w' r k = Some v.
Proof.
  intros Hwf E. unfold js_get in E.
  destruct (objects w !! r) as [o|] eqn:Ho;
    [|by rewrite js_access_S, Ho in E].
  destruct (o_props o !! k) as [[v0|ik orig]|] eqn:Hk.
  - rewrite (read_data _ _ _ _ _ _ Ho Hk) in E. injection E as <- <-.
    split; [done|]. split; [apply grows_refl|]. split; [apply quiet_refl|].
    unfold peek. by rewrite Ho, Hk.
  - destruct (Hwf _ _ Ho) as [Hh Hacc].
    destruct (Hacc _ _ _ Hk) as [Habs|(l & Hl & [c Hc])].
    + fold (js_get (S (S n)) r k w) in E.
      rewrite (getter_creates_plain _ _ _ _ _ _ _ Ho Hk Hh Habs) in E.
      injection E as <- <-.
      destruct (fill_well_formed w r o ik
                  {| rp_host := lookup_value o "host"; rp_value := orig |} Hwf Ho Habs)
        as (H1 & H2 & H3).
      split; [exact H1|]. split; [exact H2|]. split; [exact H3|].
      unfold peek. rewrite set_obj_lookup. simpl.
      assert (ik <> k) by (intros ->; destruct Habs; congruence).
      rewrite lookup_insert_ne by done. rewrite Hk, lookup_insert_eq.
      by rewrite lookup_insert_eq.
    + fold (js_get (S (S n)) r k w) in E.
      rewrite (getter_reads _ _ _ _ _ _ _ _ _ Ho Hk Hl Hc) in E. injection E as <- <-.
      split; [done|]. split; [apply grows_refl|]. split; [apply quiet_refl|].
      unfold peek. by rewrite Ho, Hk, Hl, Hc.
  - rewrite (read_absent _ _ _ _ _ Ho Hk) in E. injection E as <- <-.
    split; [done|]. split; [apply grows_refl|]. split; [apply quiet_refl|].
    unfold peek. by rewrite Ho, Hk.
Qed.

Lemma eval_template_well_formed n r body : forall w t w',
  well_formed w -> eval_template (S (S n)) r body w = Ok t w' ->
  well_formed w' /\ grows w w' /\ quiet w w' /\ is_Some (peek_template w' r body).
Proof.
  induction body as [|[s|k] body IH]; intros w t w' Hwf E; simpl in E.
  - injection E as <- <-.
    split; [done|]. split; [apply grows_refl|]. split; [apply quiet_refl|]. by eexists.
  - unfold bind in E.
    destruct (eval_template (S (S n)) r body w) as [rest w1|] eqn:E1; [|done].
    injection E as <- <-. destruct (IH _ _ _ Hwf E1) as (H1 & H2 & H3 & [t' H4]).
    split; [done|]. split; [done|]. split; [done|]. simpl. rewrite H4. by eexists.
  - unfold bind in E.
    destruct (js_get (S (S n)) r k w) as [v w1|] eqn:E1; [|done].
    destruct (eval_template (S (S n)) r body w1) as [rest w2|] eqn:E2; [|done].
    injection E as <- <-.
    destruct (get_well_formed _ _ _ _ _ _ Hwf E1) as (H1 & H2 & H3 & H4).
    destruct (IH _ _ _ H1 E2) as (H1' & H2' & H3' & [t' H4']).
    split; [done|]. split; [by eapply grows_trans|]. split; [by eapply quiet_trans|].
    simpl. destruct (peek_grows _ _ _ _ _ H2' H4) as (v' & -> & _).
    rewrite H4'. by eexists.
Qed.

(** [render()] on a well-formed state: when it returns, it can afterwards
    be repeated without any effect. *)
Lemma call_render_well_formed n r w t w' :
  well_formed w -> call_render (S (S n)) r w = Ok t w' ->
  well_formed w' /\ grows w w' /\ quiet w w' /\ is_Some (render_result w' r).
Proof.
  intros Hwf E. unfold call_render, bind in E.
  destruct (js_get (S (S n)) r "render" w) as [v w1|] eqn:E1; [|done].
  destruct v as [| | | | | | | |f]; try done.
  destruct (get_well_formed _ _ _ _ _ _ Hwf E1) as (H1 & H2 & H3 & H4).
  destruct (call_method_Ok _ _ _ _ _ _ E) as [[this body] Ht].
  rewrite (call_method_target _ _ _ _ _ Ht) in E.
  destruct (eval_template_well_formed _ _ _ _ _ _ H1 E) as (H1' & H2' & H3' & H4').
  split; [done|]. split; [by eapply grows_trans|]. split; [by eapply quiet_trans|].
  unfold render_result.
  destruct (peek_grows _ _ _ _ _ H2' H4) as (v' & -> & ->); [|done].
  by rewrite Ht.
Qed.

(** [render_result] looks at the controllers and the cells only. *)
Lemma peek_template_ext w w' r body :
  objects w' = objects w -> cells w' = cells w ->
  peek_template w' r body = peek_template w r body.
Proof.
  intros Ho Hc. induction body as [|[s|k] body IH]; simpl; [done| |].
  - by rewrite IH.
  - rewrite IH. unfold peek. by rewrite Ho, Hc.
Qed.

Lemma render_result_ext w w' r :
  objects w' = objects w -> cells w' = cells w ->
  render_result w' r = render_result w r.
Proof.
  intros Ho Hc. unfold render_result.
  replace (peek w' r "render") with (peek w r "render")
    by (unfold peek; by rewrite Ho, Hc).
  destruct (peek w r "render") as [[| | | | | | | |f]|]; try done.
  destruct (render_target f r) as [[t body]|]; [|done].
  by apply peek_template_ext.
Qed.

Lemma constructed_plain C this host element : all_plain (constructed C this host element).
Proof.
  unfold constructed.
  set (o0 := own "element" _ _).
  assert (H0 : all_plain o0).
  { unfold o0. repeat apply own_plain. intros k ik orig. simpl. by rewrite lookup_empty. }
  assert (Hb : forall ms o, all_plain o -> all_plain (fold_left (bind_own this) ms o)).
  { induction ms as [|m ms IH]; intros o Ho; [done|]. simpl. by apply IH, bind_own_plain. }
  assert (Hf : forall fs o, all_plain o ->
            all_plain (fold_left (fun o kv => own (fst kv) (snd kv) o) fs o)).
  { induction fs as [|kv fs IH]; intros o Ho; [done|]. simpl. by apply IH, own_plain. }
  by apply Hf, Hb.
Qed.















Lemma well_formedb_sound w : well_formedb w = true -> well_formed w.
Proof.
  unfold well_formedb. rewrite forallb_forall. intros H r o Ho.
  specialize (H (r, o)). simpl in H.
  assert (Hin : In (r, o) (map_to_list (objects w)))
    by (by apply list_elem_of_In, elem_of_map_to_list).
  apply H, andb_prop in Hin. destruct Hin as [Hh Hacc]. split.
  - intros ik orig Hk. by rewrite Hk in Hh.
  - intros k ik orig Hk. rewrite forallb_forall in Hacc.
    specialize (Hacc (k, Accessor ik orig)). simpl in Hacc.
    assert (Hin : In (k, Accessor ik orig) (map_to_list (o_props o)))
      by (by apply list_elem_of_In, elem_of_map_to_list).
    apply Hacc in Hin.
    destruct (o_props o !! ik) as [[v|]|] eqn:Hik; try done.
    + destruct v as [| | | | | | |l|]; try done. right. exists l. split; [done|].
      by destruct (cells w !! l).
    + left. split; [done|]. by destruct (proto_lookup (o_class o) ik).
Qed.


(** On a connected host the constructor of one controller can change
    another: here the second controller of the first pass installs the
    reactive field of the first one, after that one was rendered.  The
    second pass constructs nothing, but its render of the first controller
    creates the slot: the pass is not a pure re-render, although the first
    pass started on a well-formed state. *)
Example second_pass_fills_slot :
  let w1 := final (updateContent 4 7 (Some meddling_elements) meddling) in
  let w2 := final (updateContent 4 7 (Some meddling_elements) w1) in
  well_formedb meddling = true /\
  updateContent 4 7 (Some meddling_elements) meddling = Ok tt w1 /\
  updateContent 4 7 (Some meddling_elements) w1 = Ok tt w2 /\
  controllers w2 = controllers w1 /\
  size (cells w1) = 0 /\ size (cells w2) = 1.
Proof.
  do 4 (split; [vm_compute; reflexivity|]). split; vm_compute; reflexivity.
Qed.

(** The counter on a connected host: the first pass constructs, installs
    and renders; the second pass only commits the same template again. *)
Example connected_counter_passes :
  let w := connect 7 registered in
  let w1 := final (updateContent 4 7 (Some [marker 1 "counter"]) w) in
  let w2 := final (updateContent 4 7 (Some [marker 1 "counter"]) w1) in
  updateContent 4 7 (Some [marker 1 "counter"]) w = Ok tt w1 /\
  updateContent 4 7 (Some [marker 1 "counter"]) w1 = Ok tt w2 /\
  objects w2 = objects w1 /\ cells w2 = cells w1 /\ requests w2 = requests w1 /\
  controllers w2 = [(7, 0)] /\
  commits w2 = commits w1 ++ [(VElem 1, [VStr "count="; VNum 0])].
Proof.
  do 6 (split; [vm_compute; reflexivity|]). vm_compute. reflexivity.
Qed.

(** The two passes on the counter: the first creates the slot of [count],
    the second only commits the same template again. *)
Example counter_passes :
  controllers rendered_once = [(7, 0)] /\
  rerender rendered_once (marker 1 "counter") = [(VElem 1, [VStr "count="; VNum 0])] /\
  size (cells initialised) = 0 /\ size (cells rendered_once) = 1.
Proof. repeat split; vm_compute; reflexivity. Qed.

(** ** Auto-binding of methods (C8) *)

Lemma bind_all_bound this ms : forall o m,
  Forall (fun p => is_function (lookup_value o p) = true) ms ->
  In m ms \/ (exists g, o_props o !! m = Some (Data (VFun (Bound g this)))) ->
  exists g, o_props (fold_left (bind_own this) ms o) !! m
            = Some (Data (VFun (Bound g this))).
Proof.
  induction ms as [|a ms IH]; intros o m Hf Hm; simpl.
  - by destruct Hm as [[]|Hm].
  - inversion Hf as [|? ? Ha Hms]; subst. apply IH.
    + eapply Forall_impl; [exact Hms|]. intros p. apply bind_own_function.
    + unfold bind_own.
      destruct (lookup_value o a) as [| | | | | | | |f] eqn:Ef; try done.
      destruct (decide (a = m)) as [->|Hne].
      * right. exists f. simpl. apply lookup_insert_eq.
      * destruct Hm as [[Hm|Hm]|[g Hg]]; [done | by left |].
        right. exists g. simpl. by rewrite lookup_insert_ne.
Qed.

Lemma field_initialisers_keep fs : forall o m,
  ~ In m (map fst fs) ->
  o_props (fold_left (fun o kv => own (fst kv) (snd kv) o) fs o) !! m = o_props o !! m.
Proof.
  induction fs as [|[k v] fs IH]; intros o m Hm; simpl; [done|].
  rewrite IH by (intros H; apply Hm; by right).
  simpl. rewrite lookup_insert_ne; [done|]. intros ->. apply Hm. by left.
Qed.

(** What the constructor does achieve: every function-valued own property
    of the prototype of the instance's own class (one that no instance
    field hides) becomes an own property of the instance, bound to it; a
    bound function runs on the instance however it is called. *)
Lemma own_methods_bound C this host element m f :
  In m (getOwnPropertyNames C) ->
  proto_lookup C m = Some (VFun f) ->
  m <> "reactivePropertiesInitialized" -> m <> "host" -> m <> "element" ->
  ~ In m (map fst (field_initialisers C)) ->
  exists g,
    o_props (constructed C this host element) !! m = Some (Data (VFun (Bound g this))) /\
    forall site, call_this (Bound g this) site = call_this g (Some this).
Proof.
  intros Hin Hproto Hn1 Hn2 Hn3 Hfield. unfold constructed.
  set (o0 := own "element" _ _).
  assert (Hm0 : lookup_value o0 m = VFun f).
  { unfold lookup_value, o0. simpl.
    rewrite !lookup_insert_ne by done. by rewrite lookup_empty, Hproto. }
  destruct (bind_all_bound this
              (List.filter (fun p => is_function (lookup_value o0 p)) (getOwnPropertyNames C))
              o0 m) as [g Hg].
  - apply Forall_forall. intros p Hp. apply list_elem_of_In, filter_In in Hp. tauto.
  - left. apply filter_In. split; [done|]. by rewrite Hm0.
  - exists g. split; [|done]. by rewrite field_initialisers_keep.
Qed.

(** C8, at the failing input: controller 0 of [mounted] is a [Counter],
    which extends [CounterBase].  Its own method [increment] is bound to
    it, but [reset], inherited from [CounterBase], and the hook
    [hostUpdate], inherited from [LiteElement], are still the unbound
    prototype functions: called as bare callbacks they have no [this]. *)
Theorem inherited_method_unbound :
  js_get 1 0 "increment" mounted
    = Ok (VFun (Bound (UserFn "increment" []) 0)) mounted /\
  call_this (Bound (UserFn "increment" []) 0) None = Some 0 /\
  js_get 1 0 "reset" mounted = Ok (VFun (UserFn "reset" [TField "count"])) mounted /\
  call_this (UserFn "reset" [TField "count"]) None = None /\
  js_get 1 0 "hostUpdate" mounted = Ok (VFun (Native "hostUpdate")) mounted /\
  call_this (Native "hostUpdate") None = None.
Proof. repeat split; vm_compute; reflexivity. Qed.

(** ** Which fields the installation step reaches *)

(** [initReactiveProperties] iterates [this.constructor.properties].  The
    auto-binding loop has replaced [this.constructor] by a bound function,
    whose prototype is the constructor the class extends, so the static
    [properties] of the controller's own class are not seen: after the step
    [ticks] is still a plain field, while [count], declared by the
    superclass of [Counter], got its accessor. *)
Example installation_reads_inherited_properties :
  let w := final ((lite [("ticker", Ticker)] ;;
                   updateContent 3 7 (Some [marker 1 "ticker"]) ;;
                   initReactiveProperties 3 0) empty_world) in
  holds_data 0 "ticks" (VNum 0) w /\
  holds_data 0 flag (VBool true) w /\
  holds_accessor 0 "count" initialised.
Proof.
  split; [|split].
  - eexists. split; vm_compute; reflexivity.
  - eexists. split; vm_compute; reflexivity.
  - eexists. eexists. eexists. split; vm_compute; reflexivity.
Qed.

(** * Further properties of the code *)

(** ** ReactiveProperty *)

(** X1: a [ReactiveProperty] reads back the value it was constructed with
    and, after [set], the value set.  Constructing it requests no update;
    [set] on a cell whose host is a host requests exactly one, on that host;
    every other cell is left as it was. *)
Theorem ReactiveProperty_round_trip h v v' w :
  exists l w1 w2,
    ReactiveProperty_new (VHost h) v w = Ok l w1 /\
    (l ∉ dom (cells w)) /\
    requests w1 = requests w /\
    ReactiveProperty_get l w1 = Ok v w1 /\
    ReactiveProperty_set l v' w1 = Ok tt w2 /\
    requests w2 = requests w ++ [h] /\
    ReactiveProperty_get l w2 = Ok v' w2 /\
    objects w2 = objects w /\
    forall l', l' <> l -> cells w2 !! l' = cells w !! l'.
Proof.
  set (l := fresh (dom (cells w))).
  exists l. eexists. eexists.
  split; [reflexivity|]. split; [apply is_fresh|]. split; [reflexivity|].
  split; [unfold ReactiveProperty_get; simpl; by rewrite lookup_insert_eq|].
  split; [unfold ReactiveProperty_set; simpl; by rewrite lookup_insert_eq|].
  split; [reflexivity|].
  split; [unfold ReactiveProperty_get; simpl; by rewrite lookup_insert_eq|].
  split; [reflexivity|].
  intros l' Hne. simpl. by rewrite !lookup_insert_ne.
Qed.

(** ** The accessors of [reactive] *)

(** X2: whatever the state of the backing slot, after [F = v] the field
    reads as [v], and reading it changes nothing any more. *)
Theorem write_then_read n w c F h v :
  installed w c F h ->
  untouched w c F \/ (exists l v0, slot w c F l h v0) ->
  exists w1,
    js_set (S (S n)) c F v w = Ok tt w1 /\
    js_get (S (S n)) c F w1 = Ok v w1.
Proof.
  intros Hi [Hu|(l & v0 & Hs)].
  - destruct (write_without_slot n w c F h v Hi Hu) as (w1 & l & E & _ & _ & Hi1 & Hs1).
    exists w1. split; [done|]. by eapply read_with_slot.
  - destruct (write_with_slot n w c F l h v0 v Hi Hs) as (w1 & E & _ & _ & Hi1 & Hs1).
    exists w1. split; [done|]. by eapply read_with_slot.
Qed.

Lemma write_then_read_witness :
  exists w1,
    js_set 2 0 "count" (VNum 41) initialised = Ok tt w1 /\
    js_get 2 0 "count" w1 = Ok (VNum 41) w1.
Proof.
  apply (write_then_read 0 initialised 0 "count" 7 (VNum 41)).
  - eexists. eexists. repeat split; vm_compute; reflexivity.
  - left. eexists. repeat split; vm_compute; reflexivity.
Defined.

(** X3: reading a reactive field never requests an update, and only the
    first read changes the state (it creates the slot): a second read
    returns the same value and leaves the state as it is. *)
Theorem read_is_repeatable n w c F h :
  installed w c F h ->
  untouched w c F \/ (exists l v0, slot w c F l h v0) ->
  exists v w1,
    js_get (S (S n)) c F w = Ok v w1 /\
    requests w1 = requests w /\
    js_get (S (S n)) c F w1 = Ok v w1.
Proof.
  intros Hi [Hu|(l & v0 & Hs)].
  - destruct Hi as (o & orig & Ho & HF & Hh). destruct Hu as (o' & Ho' & Habs).
    rewrite Ho in Ho'. injection Ho' as <-.
    exists orig. eexists. split; [by eapply getter_creates|]. split; [reflexivity|].
    assert (internalKey F <> F) by (intros E; destruct Habs as [Ha _]; rewrite E in Ha; congruence).
    eapply (getter_reads _ _ _ _ _ _ _ _ {| rp_host := VHost h; rp_value := orig |}).
    + by apply define_objects.
    + simpl. rewrite lookup_insert_ne by done. exact HF.
    + simpl. apply lookup_insert_eq.
    + simpl. apply lookup_insert_eq.
  - exists v0, w. split; [by eapply read_with_slot|]. split; [done|].
    by eapply read_with_slot.
Qed.

Lemma read_is_repeatable_witness :
  exists v w1,
    js_get 2 0 "count" initialised = Ok v w1 /\
    requests w1 = requests initialised /\
    js_get 2 0 "count" w1 = Ok v w1.
Proof.
  apply (read_is_repeatable 0 initialised 0 "count" 7).
  - eexists. eexists. repeat split; vm_compute; reflexivity.
  - left. eexists. repeat split; vm_compute; reflexivity.
Defined.

(** X4: the backing key is an ordinary property name.  When the object
    already uses ["__" + F] for a value of its own (not [undefined]), the
    accessors take that value for the slot: a write throws a [TypeError],
    and so does a read, except that a read of [null] yields [undefined];
    the state is left as it was. *)
Theorem backing_key_collision n w c o F ik orig v x :
  objects w !! c = Some o ->
  o_props o !! F = Some (Accessor ik orig) ->
  o_props o !! ik = Some (Data v) ->
  v = VNull \/ not_a_slot v ->
  js_set (S (S n)) c F x w = Throw TypeError w /\
  js_get (S (S n)) c F w
  = match v with VNull => Ok VUndefined w | _ => Throw TypeError w end.
Proof.
  intros Ho HF Hik Hv. split.
  - unfold js_set. unfold bind at 1. rewrite js_access_S, Ho, HF.
    unfold setter, bind. rewrite (read_data _ _ _ _ _ _ Ho Hik).
    assert (Hv' : v <> VUndefined /\ forall l, v <> VCell l)
      by (destruct Hv as [->|Hv]; [done|]; by destruct v).
    destruct Hv' as [Hu Hc].
    destruct v; try done; rewrite (read_data _ _ _ _ _ _ Ho Hik); try done.
    by destruct (Hc l).
  - unfold js_get. rewrite js_access_S, Ho, HF.
    unfold getter, bind. rewrite (read_data _ _ _ _ _ _ Ho Hik).
    assert (Hv' : v <> VUndefined /\ forall l, v <> VCell l)
      by (destruct Hv as [->|Hv]; [done|]; by destruct v).
    destruct Hv' as [Hu Hc].
    destruct v; try done; unfold ret; rewrite (read_data _ _ _ _ _ _ Ho Hik); try done.
    by destruct (Hc l).
Qed.

Lemma backing_key_collision_witness :
  js_set 2 0 "count" (VNum 1) shadowed = Throw TypeError shadowed /\
  js_get 2 0 "count" shadowed = Throw TypeError shadowed.
Proof.
  eapply (backing_key_collision 0 shadowed 0 _ "count" "__count" (VNum 0) (VNum 5) (VNum 1)).
  - vm_compute. reflexivity.
  - vm_compute. reflexivity.
  - vm_compute. reflexivity.
  - right. exact I.
Defined.

Lemma setter_creates_plain n r k w o ik orig v :
  objects w !! r = Some o ->
  o_props o !! k = Some (Accessor ik orig) ->
  plain_at o "host" ->
  slot_absent o ik ->
  let l := fresh (dom (cells w)) in
  js_set (S (S n)) r k v w
  = Ok tt (set_obj r (own ik (VCell l) o)
             (with_cells <[l := {| rp_host := lookup_value o "host"; rp_value := v |}]> w)).
Proof.
  intros Ho Hk Hh [Hik Hp] l. unfold js_set.
  unfold bind at 1. rewrite js_access_S, Ho, Hk.
  unfold setter, bind.
  rewrite (read_absent _ _ _ _ _ Ho Hik), Hp. simpl.
  rewrite (read_plain _ _ _ _ _ Ho Hh).
  unfold ReactiveProperty_new. fold l.
  erewrite write_absent by (simpl; eauto).
  by erewrite define_set by (simpl; eauto).
Qed.

(** X5: the slot keeps whatever [this.host] held when it was created.  If
    that is not a host (the property is missing, or [undefined]), the write
    that creates the slot passes silently, and every later write stores the
    value and then throws a [TypeError] from [requestUpdate]: no update is
    requested, and the field reads as the value written. *)
Theorem write_without_host n w c o F ik orig v1 v2 :
  objects w !! c = Some o ->
  o_props o !! F = Some (Accessor ik orig) ->
  plain_at o "host" ->
  (forall h, lookup_value o "host" <> VHost h) ->
  slot_absent o ik ->
  exists w1 w2,
    js_set (S (S n)) c F v1 w = Ok tt w1 /\
    requests w1 = requests w /\
    js_set (S (S n)) c F v2 w1 = Throw TypeError w2 /\
    requests w2 = requests w /\
    js_get (S (S n)) c F w2 = Ok v2 w2.
Proof.
  intros Ho HF Hh Hnh Habs.
  assert (Hne : ik <> F) by (intros ->; destruct Habs; congruence).
  set (l := fresh (dom (cells w))).
  set (hv := lookup_value o "host") in *.
  set (o1 := own ik (VCell l) o).
  set (w1 := set_obj c o1 (with_cells <[l := {| rp_host := hv; rp_value := v1 |}]> w)).
  set (w2 := with_cells <[l := {| rp_host := hv; rp_value := v2 |}]> w1).
  assert (Ho1 : objects w1 !! c = Some o1) by apply set_obj_lookup.
  assert (HF1 : o_props o1 !! F = Some (Accessor ik orig))
    by (simpl; by rewrite lookup_insert_ne).
  assert (Hik1 : o_props o1 !! ik = Some (Data (VCell l)))
    by (simpl; apply lookup_insert_eq).
  exists w1, w2.
  split; [exact (setter_creates_plain n c F w o ik orig v1 Ho HF Hh Habs)|].
  split; [reflexivity|].
  split; [|split; [reflexivity|]].
  - unfold js_set. unfold bind at 1. rewrite js_access_S, Ho1, HF1.
    unfold setter, bind. rewrite !(read_data _ _ _ _ _ _ Ho1 Hik1).
    unfold ReactiveProperty_set. simpl. rewrite lookup_insert_eq. simpl.
    unfold bind, modify. simpl. fold w1. fold w2.
    destruct hv eqn:E; try reflexivity. by destruct (Hnh h).
  - eapply (getter_reads _ _ _ _ _ _ _ _ {| rp_host := hv; rp_value := v2 |}).
    + exact Ho1.
    + exact HF1.
    + exact Hik1.
    + simpl. apply lookup_insert_eq.
Qed.

Lemma write_without_host_witness :
  exists w1 w2,
    js_set 2 0 "count" (VNum 1) hostless = Ok tt w1 /\
    requests w1 = requests hostless /\
    js_set 2 0 "count" (VNum 2) w1 = Throw TypeError w2 /\
    requests w2 = requests hostless /\
    js_get 2 0 "count" w2 = Ok (VNum 2) w2.
Proof.
  eapply (write_without_host 0 hostless 0 _ "count" "__count" (VNum 0) (VNum 1) (VNum 2)).
  - vm_compute. reflexivity.
  - vm_compute. reflexivity.
  - intros ik orig. vm_compute. discriminate.
  - intros h. vm_compute. discriminate.
  - split; vm_compute; reflexivity.
Defined.

Lemma reactive_host_read_diverges fuel : forall c w o ik orig,
  objects w !! c = Some o ->
  o_props o !! "host" = Some (Accessor ik orig) ->
  slot_absent o ik ->
  js_access fuel c "host" Read w = Throw OutOfFuel w.
Proof.
  induction fuel as [|n IH]; intros c w o ik orig Ho Hh [Hik Hp]; [done|].
  rewrite js_access_S, Ho, Hh. unfold getter, bind.
  destruct n as [|m]; [done|].
  rewrite (read_absent _ _ _ _ _ Ho Hik), Hp. simpl.
  by rewrite (IH c w o ik orig).
Qed.

(** X6: a class must not declare [host] reactive.  Once [host] is an
    accessor, the first access to any reactive field of the controller
    whose slot does not exist yet ([host] itself included) reads
    [this.host] to create the slot, which runs the getter of [host] again:
    the access never returns, whatever the fuel. *)
Theorem reactive_host_diverges fuel w c o F ik ikh orig origh v :
  objects w !! c = Some o ->
  o_props o !! "host" = Some (Accessor ikh origh) ->
  slot_absent o ikh ->
  o_props o !! F = Some (Accessor ik orig) ->
  slot_absent o ik ->
  js_get fuel c F w = Throw OutOfFuel w /\
  js_set fuel c F v w = Throw OutOfFuel w.
Proof.
  intros Ho Hh Habsh HF [Hik Hp]. unfold js_get, js_set.
  destruct fuel as [|n]; [done|].
  unfold bind at 1. rewrite !js_access_S, Ho, HF. unfold getter, setter, bind.
  destruct n as [|m]; [done|].
  rewrite (read_absent _ _ _ _ _ Ho Hik), Hp. simpl.
  by rewrite (reactive_host_read_diverges (S m) c w o ikh origh).
Qed.

Lemma reactive_host_diverges_witness :
  js_get 1000 0 "host" reactive_host = Throw OutOfFuel reactive_host /\
  js_set 1000 0 "host" (VHost 8) reactive_host = Throw OutOfFuel reactive_host.
Proof.
  eapply (reactive_host_diverges 1000 reactive_host 0 _ "host" "__host" "__host"
            (VHost 7) (VHost 7) (VHost 8)).
  - vm_compute. reflexivity.
  - vm_compute. reflexivity.
  - split; vm_compute; reflexivity.
  - vm_compute. reflexivity.
  - split; vm_compute; reflexivity.
Defined.

(** ** Installation of the accessors *)

Lemma define_set_prop r k q w o :
  objects w !! r = Some o ->
  define r k q w
  = set_obj r {| o_class := o_class o; o_props := <[k := q]> (o_props o) |} w.
Proof.
  intros Ho. unfold define, set_obj, with_objects. f_equal.
  apply map_eq. intros i. destruct (decide (i = r)) as [->|Hne].
  - by rewrite lookup_alter_eq, lookup_insert_eq, Ho.
  - by rewrite lookup_alter_ne, lookup_insert_ne.
Qed.

Lemma reactive_plain n c p w o :
  objects w !! c = Some o -> plain_at o p ->
  reactive (S n) c p w = Ok tt (set_obj c (accessorise p o) w).
Proof.
  intros Ho Hp. unfold reactive, bind, js_get.
  rewrite (read_plain _ _ _ _ _ Ho Hp). unfold modify.
  by rewrite (define_set_prop _ _ _ _ _ Ho).
Qed.

Lemma accessorise_lookup_ne p o k :
  p <> k -> o_props (accessorise p o) !! k = o_props o !! k.
Proof. intros H. simpl. by rewrite lookup_insert_ne. Qed.

Lemma accessorise_value_ne p o k :
  p <> k -> lookup_value (accessorise p o) k = lookup_value o k.
Proof. intros H. unfold lookup_value. by rewrite accessorise_lookup_ne. Qed.

Lemma forEach_reactive_plain n c ps : forall w o,
  objects w !! c = Some o -> List.NoDup ps ->
  (forall p, In p ps -> plain_at o p) ->
  forEach (reactive (S n) c) ps w
  = Ok tt (set_obj c (fold_left (fun o p => accessorise p o) ps o) w).
Proof.
  induction ps as [|p ps IH]; intros w o Ho Hnd Hpl; simpl.
  - unfold ret, set_obj, with_objects. destruct w. simpl in *. by rewrite insert_id.
  - inversion Hnd as [|? ? Hnin Hnd']; subst.
    unfold bind. rewrite (reactive_plain _ _ _ _ _ Ho) by (apply Hpl; by left).
    rewrite (IH _ (accessorise p o)); [by rewrite set_obj_twice | apply set_obj_lookup | done |].
    intros p' Hin ik orig. rewrite accessorise_lookup_ne.
    + apply Hpl. by right.
    + intros ->. done.
Qed.

Lemma installed_all ps : forall o,
  List.NoDup ps ->
  let o' := fold_left (fun o p => accessorise p o) ps o in
  o_class o' = o_class o /\
  (forall p, In p ps ->
     o_props o' !! p = Some (Accessor (internalKey p) (lookup_value o p))) /\
  (forall k, ~ In k ps -> o_props o' !! k = o_props o !! k).
Proof.
  induction ps as [|p ps IH]; intros o Hnd; simpl; [by repeat split|].
  inversion Hnd as [|? ? Hnin Hnd']; subst.
  destruct (IH (accessorise p o) Hnd') as (Hc & Hin & Hout).
  split; [by rewrite Hc|]. split.
  - intros p' [<-|Hp'].
    + rewrite Hout by done. simpl. apply lookup_insert_eq.
    + rewrite (Hin p' Hp'), accessorise_value_ne; [done|]. intros ->. done.
  - intros k Hk. rewrite Hout by (intros H; apply Hk; by right).
    apply accessorise_lookup_ne. intros ->. apply Hk. by left.
Qed.

(** X7: what [initReactiveProperties] does on a controller whose flag is
    unset.  It returns normally, sets the flag, and replaces each property
    named in [this.constructor.properties] by the accessor pair of
    [reactive], which captures the value the property (own or inherited)
    had at that moment.  No other property changes, no slot is created and
    no update is requested. *)
Theorem installation_installs n w c o f ps :
  objects w !! c = Some o ->
  plain_at o flag -> truthy (lookup_value o flag) = false ->
  plain_at o "constructor" -> lookup_value o "constructor" = VFun f ->
  static_properties false f = Some ps ->
  List.NoDup ps -> ~ In flag ps ->
  (forall p, In p ps -> plain_at o p) ->
  exists w' o',
    initReactiveProperties (S n) c w = Ok tt w' /\
    objects w' = <[c := o']> (objects w) /\
    cells w' = cells w /\ requests w' = requests w /\ commits w' = commits w /\
    o_class o' = o_class o /\
    o_props o' !! flag = Some (Data (VBool true)) /\
    (forall p, In p ps ->
       o_props o' !! p = Some (Accessor (internalKey p) (lookup_value o p))) /\
    (forall k, ~ In k ps -> k <> flag -> o_props o' !! k = o_props o !! k).
Proof.
  intros Ho Hpf Hfalse Hpc Hctor Hps Hnd Hflag Hpl.
  set (o1 := own flag (VBool true) o).
  set (o' := fold_left (fun o p => accessorise p o) ps o1).
  exists (set_obj c o' w), o'.
  assert (Hplain1 : forall k, plain_at o k -> plain_at o1 k).
  { intros k Hk ik orig. unfold o1. simpl. destruct (decide (flag = k)) as [<-|Hne].
    - by rewrite lookup_insert_eq.
    - rewrite lookup_insert_ne by done. apply Hk. }
  assert (Hval1 : forall k, k <> flag -> lookup_value o1 k = lookup_value o k).
  { intros k Hk. unfold lookup_value, o1. simpl. by rewrite lookup_insert_ne. }
  destruct (installed_all ps o1 Hnd) as (Hc & Hin & Hout). fold o' in Hc, Hin, Hout.
  split.
  { unfold initReactiveProperties, bind at 1, js_get.
    rewrite (read_plain _ _ _ _ _ Ho Hpf). fold flag. rewrite Hfalse. simpl.
    unfold bind at 1, js_set, bind at 1.
    rewrite (write_plain _ _ _ _ _ _ Ho Hpf). fold o1. unfold ret.
    unfold bind at 1.
    rewrite (read_plain _ _ _ (set_obj c o1 w) o1)
      by (apply set_obj_lookup || by apply Hplain1).
    rewrite Hval1 by done. rewrite Hctor, Hps.
    rewrite (forEach_reactive_plain _ _ _ _ o1);
      [by rewrite set_obj_twice | apply set_obj_lookup | done |].
    intros p Hp. by apply Hplain1, Hpl. }
  split; [reflexivity|]. do 3 (split; [reflexivity|]).
  split; [by rewrite Hc|].
  split; [rewrite Hout by done; unfold o1; simpl; apply lookup_insert_eq|].
  split.
  - intros p Hp. rewrite (Hin p Hp), Hval1; [done|]. intros ->. done.
  - intros k Hk Hkf. rewrite (Hout k Hk). unfold o1. simpl. by rewrite lookup_insert_ne.
Qed.

Lemma installation_installs_witness :
  exists w' o',
    initReactiveProperties 3 0 mounted = Ok tt w' /\
    objects w' = <[0 := o']> (objects mounted) /\
    cells w' = cells mounted /\ requests w' = requests mounted /\
    commits w' = commits mounted /\
    o_class o' = Counter /\
    o_props o' !! flag = Some (Data (VBool true)) /\
    (forall p, In p ["count"] ->
       o_props o' !! p = Some (Accessor (internalKey p) (VNum 0))) /\
    (forall k, ~ In k ["count"] -> k <> flag ->
       o_props o' !! k = o_props (constructed Counter 0 7 1) !! k).
Proof.
  assert (Ho : objects mounted !! 0 = Some (constructed Counter 0 7 1))
    by (vm_compute; reflexivity).
  destruct (installation_installs 2 mounted 0 (constructed Counter 0 7 1)
              (Bound (ctor_of Counter) 0) ["count"] Ho) as (w' & o' & H).
  - intros ik orig. vm_compute. discriminate.
  - vm_compute. reflexivity.
  - intros ik orig. vm_compute. discriminate.
  - vm_compute. reflexivity.
  - vm_compute. reflexivity.
  - repeat constructor. intros H. inversion H.
  - intros [H|[]]. discriminate H.
  - intros p [<-|[]] ik orig. vm_compute. discriminate.
  - exists w', o'. destruct H as (H1 & H2 & H3 & H4 & H5 & H6 & H7 & H8 & H9).
    repeat split; try assumption.
    intros p [<-|[]]. rewrite (H8 "count" (or_introl eq_refl)). reflexivity.
Defined.

(** ** Reading a reactive field before any write (C5) *)


(** C5, counterexample: [Ticker] declares [ticks] reactive and initialises
    it with 0.  After construction and installation the field is still a
    plain property: it reads as 0, but no read ever creates a slot. *)
Lemma declared_field_not_installed : ~ declared_field_reads_default.
Proof.
  intros H.
  set (w1 := final (new 2 Ticker 7 1 empty_world)).
  set (w2 := final (initReactiveProperties 2 0 w1)).
  assert (E1 : new 2 Ticker 7 1 empty_world = Ok 0 w1) by (vm_compute; reflexivity).
  assert (E2 : initReactiveProperties 2 0 w1 = Ok tt w2) by (vm_compute; reflexivity).
  assert (E3 : js_get 2 0 "ticks" w2 = Ok (VNum 0) w2) by (vm_compute; reflexivity).
  assert (E4 : cells w2 = ∅) by (vm_compute; reflexivity).
  destruct (H 0 Ticker "ticks" (VNum 0) 7 1 empty_world 0 w1 w2) as (l & w3 & Hg & _ & Hs);
    try assumption.
  - exists ["ticks"]. split; [reflexivity|by left].
  - reflexivity.
  - rewrite E3 in Hg. injection Hg as <-. rewrite E4, lookup_empty in Hs. discriminate.
Qed.



(** On a connected host the installation runs inside the constructor,
    before the field initialisers: the accessor of [count] captures
    [undefined], the first render commits it, and the initialiser then goes
    through the setter and requests an update. *)
Example connected_counter_mount :
  let w := final ((lite [("counter", Counter)] ;;
                   updateContent 4 7 (Some [marker 1 "counter"]))
                    (connect 7 empty_world)) in
  commits w = [(VElem 1, [VStr "count="; VUndefined]);
               (VElem 1, [VStr "count="; VNum 0])] /\
  requests w = [7] /\ holds_accessor 0 "count" w /\
  holds_data 0 flag (VBool true) w.
Proof.
  split; [vm_compute; reflexivity|]. split; [vm_compute; reflexivity|].
  split.
  - eexists. eexists. eexists. split; vm_compute; reflexivity.
  - eexists. split; vm_compute; reflexivity.
Qed.

(** ** The constructor *)

Lemma bind_own_lookup_ne this o a k :
  a <> k -> o_props (bind_own this o a) !! k = o_props o !! k.
Proof.
  intros H. unfold bind_own. destruct (lookup_value o a); try done.
  simpl. by rewrite lookup_insert_ne.
Qed.

Lemma bind_own_value_ne this o a k :
  a <> k -> lookup_value (bind_own this o a) k = lookup_value o k.
Proof.
  intros H. unfold lookup_value. rewrite bind_own_lookup_ne by done.
  unfold bind_own. by destruct (lookup_value o a).
Qed.

(** The binding loop ends with a function bound to [this] that comes from
    the function it found. *)
Lemma bind_all_target this ms : forall o m f0,
  Forall (fun p => is_function (lookup_value o p) = true) ms ->
  (In m ms /\ lookup_value o m = VFun f0) \/
  (exists g, o_props o !! m = Some (Data (VFun (Bound g this))) /\ unbind g = unbind f0) ->
  exists g, o_props (fold_left (bind_own this) ms o) !! m
            = Some (Data (VFun (Bound g this))) /\ unbind g = unbind f0.
Proof.
  induction ms as [|a ms IH]; intros o m f0 Hf Hm; simpl.
  - destruct Hm as [[[] _]|Hm]. exact Hm.
  - inversion Hf as [|? ? Ha Hms]; subst. apply IH.
    + eapply Forall_impl; [exact Hms|]. intros p. apply bind_own_function.
    + destruct (decide (a = m)) as [->|Hne].
      * right. destruct Hm as [[_ Hv]|(g & Hg & Hu)].
        -- exists f0. unfold bind_own. rewrite Hv. simpl. by rewrite lookup_insert_eq.
        -- exists (Bound g this). unfold bind_own, lookup_value. rewrite Hg. simpl.
           by rewrite lookup_insert_eq.
      * destruct Hm as [[[Hin|Hin] Hv]|(g & Hg & Hu)]; [done | left | right].
        -- split; [done|]. by rewrite bind_own_value_ne.
        -- exists g. by rewrite bind_own_lookup_ne.
Qed.

(** The binding loop leaves data properties that are not functions alone. *)
Lemma bind_all_keeps this ms : forall o k v,
  o_props o !! k = Some (Data v) -> is_function v = false ->
  o_props (fold_left (bind_own this) ms o) !! k = Some (Data v).
Proof.
  induction ms as [|a ms IH]; intros o k v Hk Hv; simpl; [done|].
  apply IH; [|done]. destruct (decide (a = k)) as [->|Hne].
  - unfold bind_own, lookup_value. rewrite Hk. by destruct v.
  - by rewrite bind_own_lookup_ne.
Qed.

Lemma static_properties_unbind g :
  static_properties true g = static_properties true (unbind g).
Proof. induction g; simpl; try done. Qed.

Lemma static_properties_inherited C :
  static_properties true (ctor_of C) = inherited_properties C.
Proof. by destruct C. Qed.

(** What the constructor leaves under [constructor]. *)
Lemma constructed_constructor C this host element :
  ~ In "constructor" (map fst (field_initialisers C)) ->
  exists g,
    o_props (constructed C this host element) !! "constructor"
    = Some (Data (VFun (Bound g this))) /\
    unbind g = ctor_of C.
Proof.
  intros Hfield. unfold constructed.
  set (o0 := own "element" _ _).
  assert (Hm0 : lookup_value o0 "constructor" = VFun (ctor_of C)).
  { unfold lookup_value, o0. simpl. rewrite !lookup_insert_ne by done.
    rewrite lookup_empty. by destruct C. }
  destruct (bind_all_target this
              (List.filter (fun p => is_function (lookup_value o0 p)) (getOwnPropertyNames C))
              o0 "constructor" (ctor_of C)) as (g & Hg & Hu).
  - apply Forall_forall. intros p Hp. apply list_elem_of_In, filter_In in Hp. tauto.
  - left. split; [|done]. apply filter_In. split; [|by rewrite Hm0].
    unfold getOwnPropertyNames. destruct C; simpl; by left.
  - exists g. split; [by rewrite field_initialisers_keep|].
    rewrite Hu. by destruct C.
Qed.

(** X8: after construction on a host that does not call back from
    [addController], [this.constructor] is no longer the class: the
    auto-binding loop has replaced it by the class constructor bound to the
    instance.  A bound function has no static members of its own and
    inherits those of the constructor its target extends, so
    [this.constructor.properties], which [initReactiveProperties] iterates,
    is the [properties] the class inherits; the [properties] the class
    declares itself are not seen. *)
Theorem constructor_is_rebound n C host element w :
  host ∉ connected w ->
  ~ In "constructor" (map fst (field_initialisers C)) ->
  let r := fresh (dom (objects w)) in
  exists w' g,
    new (S n) C host element w = Ok r w' /\
    js_get (S n) r "constructor" w' = Ok (VFun (Bound g r)) w' /\
    unbind g = ctor_of C /\
    static_properties false (Bound g r) = inherited_properties C.
Proof.
  intros Hconn Hfield r.
  destruct (constructed_constructor C r host element Hfield) as (g & Hg & Hu).
  eexists. exists g. split; [by apply new_spec|]. fold r.
  split; [|split; [exact Hu|]].
  - eapply (read_data n r "constructor"); [apply set_obj_lookup | exact Hg].
  - simpl. by rewrite static_properties_unbind, Hu, static_properties_inherited.
Qed.

Lemma constructor_is_rebound_witness :
  exists w' g,
    new 1 Ticker 7 1 empty_world = Ok 0 w' /\
    js_get 1 0 "constructor" w' = Ok (VFun (Bound g 0)) w' /\
    unbind g = ctor_of Ticker /\
    static_properties false (Bound g 0) = None.
Proof.
  apply (constructor_is_rebound 0 Ticker 7 1 empty_world).
  - apply not_elem_of_empty.
  - intros [H|[]]. discriminate H.
Defined.

(** X9: for a class that extends [LiteElement] directly and is constructed
    on a host that does not call back from [addController], the installation
    step that runs after construction installs nothing, whatever the class
    declares in its static [properties]: it returns normally and sets the
    flag, and the controller still has no accessor at all, so none of its
    fields is reactive. *)
Theorem own_static_properties_ignored n name ps ms fs host element w :
  let C := Extends name LiteElement ps ms fs in
  host ∉ connected w ->
  ~ In "constructor" (map fst fs) -> ~ In flag (map fst fs) ->
  let r := fresh (dom (objects w)) in
  exists w1 w2 o,
    new (S n) C host element w = Ok r w1 /\
    initReactiveProperties (S n) r w1 = Ok tt w2 /\
    objects w2 !! r = Some o /\
    all_plain o /\
    o_props o !! flag = Some (Data (VBool true)) /\
    cells w2 = cells w /\ requests w2 = requests w.
Proof.
  intros C Hconn Hctor Hflag r.
  set (o0 := constructed C r host element).
  set (w1 := set_obj r o0 (with_controllers (fun cs => cs ++ [(host, r)]) w)).
  assert (Ho0 : objects w1 !! r = Some o0) by apply set_obj_lookup.
  destruct (constructed_constructor C r host element) as (g & Hg & Hu); [done|].
  fold o0 in Hg.
  assert (Hf0 : o_props o0 !! flag = Some (Data (VBool false))).
  { unfold o0, constructed. rewrite field_initialisers_keep by done.
    apply bind_all_keeps; [|done]. simpl. unfold flag.
    rewrite !lookup_insert_ne by done. apply lookup_insert_eq. }
  set (o1 := own flag (VBool true) o0).
  exists w1, (set_obj r o1 w1), o1.
  split; [by apply new_spec|].
  split; [|split; [apply set_obj_lookup|]].
  - unfold initReactiveProperties, bind at 1, js_get.
    rewrite (read_data _ _ _ _ _ _ Ho0 Hf0). simpl.
    unfold bind at 1, js_set, bind at 1.
    rewrite (write_data _ _ _ _ _ _ _ Ho0 Hf0), (define_set _ _ _ _ _ Ho0).
    fold o1. unfold ret, bind.
    rewrite (read_data _ _ "constructor" (set_obj r o1 w1) o1 (VFun (Bound g r)));
      [| apply set_obj_lookup | unfold o1; simpl; by rewrite lookup_insert_ne].
    replace (static_properties false (Bound g r)) with (inherited_properties C)
      by (simpl; by rewrite static_properties_unbind, Hu, static_properties_inherited).
    reflexivity.
  - split; [apply own_plain, constructed_plain|].
    split; [unfold o1; simpl; apply lookup_insert_eq|]. done.
Qed.

Lemma own_static_properties_ignored_witness :
  exists w1 w2 o,
    new 1 Ticker 7 1 empty_world = Ok 0 w1 /\
    initReactiveProperties 1 0 w1 = Ok tt w2 /\
    objects w2 !! 0 = Some o /\
    all_plain o /\
    o_props o !! flag = Some (Data (VBool true)) /\
    cells w2 = cells empty_world /\ requests w2 = requests empty_world.
Proof.
  apply (own_static_properties_ignored 0 "Ticker" (Some ["ticks"])
           [ ("render", VFun (UserFn "render" [TText "ticks="; TField "ticks"])) ]
           [ ("ticks", VNum 0) ] 7 1 empty_world).
  - apply not_elem_of_empty.
  - intros [H|[]]. discriminate H.
  - intros [H|[]]. discriminate H.
Defined.

Lemma field_initialisers_last fs : forall o k v,
  assoc k (rev fs) = Some v ->
  o_props (fold_left (fun o kv => own (fst kv) (snd kv) o) fs o) !! k = Some (Data v).
Proof.
  induction fs as [|[k' v'] fs IH] using rev_ind; intros o k v; [done|].
  rewrite fold_left_app, rev_app_distr. simpl.
  destruct (String.eqb_spec k k') as [->|Hne].
  - intros [= <-]. apply lookup_insert_eq.
  - intros H. rewrite lookup_insert_ne by done. by apply IH.
Qed.

(** X10: [new C(host, element)], whatever the class, the state and the
    host, allocates a fresh reference for an instance of [C] and adds it to
    the controllers of the host exactly once, also when it throws; it
    constructs nothing else and leaves registry and associations alone.
    On a host that does not call back from [addController] it never
    throws: the auto-binding loop only binds what it found to be a
    function.  It then changes nothing else in the state, and the new
    controller has no accessor; every field has the value of its last
    initialiser, and [host], [element] and the flag hold the host, the
    element and [false] unless a field initialiser of the class overwrites
    them. *)
Theorem new_never_throws n C host element w :
  let r := fresh (dom (objects w)) in
  let wf := final (new (S n) C host element w) in
  ((r ∉ dom (objects w)) /\
   dom (objects wf) = {[r]} ∪ dom (objects w) /\
   instance_of r C wf /\
   controllers wf = controllers w ++ [(host, r)] /\
   liteElementsMap wf = liteElementsMap w /\
   liteElementsInstancesMap wf = liteElementsInstancesMap w) /\
  (host ∉ connected w ->
   exists w' o,
    new (S n) C host element w = Ok r w' /\
    (r ∉ dom (objects w)) /\
    objects w' = <[r := o]> (objects w) /\
    controllers w' = controllers w ++ [(host, r)] /\
    cells w' = cells w /\ requests w' = requests w /\ commits w' = commits w /\
    liteElementsMap w' = liteElementsMap w /\
    liteElementsInstancesMap w' = liteElementsInstancesMap w /\
    o_class o = C /\ all_plain o /\
    (forall k v, assoc k (rev (field_initialisers C)) = Some v ->
       o_props o !! k = Some (Data v)) /\
    (forall k v,
       In (k, v) [("host", VHost host); ("element", VElem element); (flag, VBool false)] ->
       ~ In k (map fst (field_initialisers C)) ->
       o_props o !! k = Some (Data v))).
Proof.
  intros r wf. split.
  { assert (Hfresh : r ∉ dom (objects w)) by apply is_fresh.
    pose proof (new_inside n C host element w) as Hin. fold r in Hin.
    cbv zeta in Hin. fold wf in Hin.
    destruct (allocated_inside C r host element (fun m => m) w wf Hfresh Hin)
      as (H1 & H2 & _ & H4 & H5 & H6 & _).
    by repeat split. }
  intros Hconn. eexists. exists (constructed C r host element).
  split; [by apply new_spec|]. split; [apply is_fresh|].
  do 7 (split; [reflexivity|]).
  split; [apply constructed_class|]. split; [apply constructed_plain|]. split.
  - intros k v Hk. unfold constructed. by apply field_initialisers_last.
  - intros k v Hin Hk. unfold constructed. rewrite field_initialisers_keep by done.
    simpl in Hin. destruct Hin as [[= <- <-]|[[= <- <-]|[[= <- <-]|[]]]].
    all: apply bind_all_keeps; [|done]; simpl; unfold flag.
    + rewrite lookup_insert_ne by done. apply lookup_insert_eq.
    + apply lookup_insert_eq.
    + rewrite !lookup_insert_ne by done. apply lookup_insert_eq.
Qed.

Lemma new_never_throws_witness :
  (7 ∉ connected registered) /\
  exists w' o,
    new 1 Counter 7 1 registered = Ok 0 w' /\
    objects w' = <[0 := o]> (objects registered) /\
    controllers w' = controllers registered ++ [(7, 0)] /\
    o_class o = Counter /\ all_plain o /\
    o_props o !! "count" = Some (Data (VNum 0)).
Proof.
  assert (Hconn : 7 ∉ connected registered).
  { assert (Ec : connected registered = ∅) by (vm_compute; reflexivity).
    rewrite Ec. apply not_elem_of_empty. }
  split; [exact Hconn|].
  destruct (proj2 (new_never_throws 0 Counter 7 1 registered) Hconn)
    as (w' & o & H1 & _ & H3 & H4 & _ & _ & _ & _ & _ & H10 & H11 & H12 & _).
  exists w', o. split; [exact H1|]. split; [exact H3|]. split; [exact H4|].
  split; [exact H10|]. split; [exact H11|]. by apply H12.
Defined.







(** ** The lifecycle hooks *)

Lemma settles_refl w : well_formed w -> settles w w.
Proof. intros H. split; [done|]. split; [apply grows_refl | apply quiet_refl]. Qed.

Lemma settles_trans w0 w1 w2 : settles w0 w1 -> settles w1 w2 -> settles w0 w2.
Proof.
  intros (_ & Hg & Hq) (Hwf & Hg' & Hq').
  split; [done|]. split; [by eapply grows_trans | by eapply quiet_trans].
Qed.

(** On a well-formed state a read either returns, having filled at most
    one slot, or throws at once because the object does not exist. *)
Lemma js_get_settles n r k w :
  well_formed w -> settles w (final (js_get (S (S n)) r k w)).
Proof.
  intros Hwf. destruct (js_get (S (S n)) r k w) as [v w'|err w'] eqn:E.
  - destruct (get_well_formed _ _ _ _ _ _ Hwf E) as (H1 & H2 & H3 & _).
    split; [exact H1|]. split; [exact H2 | exact H3].
  - simpl. unfold js_get in E.
    destruct (objects w !! r) as [o|] eqn:Ho.
    2:{ rewrite js_access_S, Ho in E. injection E as _ <-. by apply settles_refl. }
    exfalso. destruct (o_props o !! k) as [[v0|ik orig]|] eqn:Hk.
    + by rewrite (read_data _ _ _ _ _ _ Ho Hk) in E.
    + destruct (Hwf _ _ Ho) as [Hh Hacc].
      fold (js_get (S (S n)) r k w) in E.
      destruct (Hacc _ _ _ Hk) as [Habs|(l & Hl & [c Hc])].
      * by rewrite (getter_creates_plain _ _ _ _ _ _ _ Ho Hk Hh Habs) in E.
      * by rewrite (getter_reads _ _ _ _ _ _ _ _ _ Ho Hk Hl Hc) in E.
    + by rewrite (read_absent _ _ _ _ _ Ho Hk) in E.
Qed.

Lemma settles_Ok {A} (m : M A) w a w' :
  settles w (final (m w)) -> m w = Ok a w' -> settles w w'.
Proof. intros H E. by rewrite E in H. Qed.

Lemma eval_template_settles n r body : forall w,
  well_formed w -> settles w (final (eval_template (S (S n)) r body w)).
Proof.
  induction body as [|[s|k] body IH]; intros w Hwf; simpl eval_template.
  - by apply settles_refl.
  - apply final_bind; [by apply IH|].
    intros rest w1 E. simpl. exact (settles_Ok _ _ _ _ (IH w Hwf) E).
  - apply final_bind; [by apply js_get_settles|].
    intros v w1 E1.
    pose proof (settles_Ok _ _ _ _ (js_get_settles n r k w Hwf) E1) as S1.
    assert (Hwf1 : well_formed w1) by apply S1.
    apply final_bind; [exact (settles_trans _ _ _ S1 (IH w1 Hwf1))|].
    intros rest w2 E2. simpl.
    exact (settles_trans _ _ _ S1 (settles_Ok _ _ _ _ (IH w1 Hwf1) E2)).
Qed.

Lemma call_method_settles n f : forall r w,
  well_formed w -> settles w (final (call_method (S (S n)) f r w)).
Proof.
  induction f as [| | |g IH r']; intros r w Hwf; simpl call_method.
  - by apply settles_refl.
  - by apply eval_template_settles.
  - by apply settles_refl.
  - by apply IH.
Qed.

(** [render()] on a well-formed state only fills backing slots, whether it
    returns or throws. *)
Lemma call_render_settles n r w :
  well_formed w -> settles w (final (call_render (S (S n)) r w)).
Proof.
  intros Hwf. unfold call_render. apply final_bind; [by apply js_get_settles|].
  intros f w1 E1.
  pose proof (settles_Ok _ _ _ _ (js_get_settles n r "render" w Hwf) E1) as S1.
  destruct f; try exact S1.
  exact (settles_trans _ _ _ S1 (call_method_settles n _ r w1 (proj1 S1))).
Qed.


(** X12: [update(element)] on a well-formed state.  When [render()] returns,
    exactly one commit is appended, into the element passed in, and a
    second [update] right after returns too and does nothing but commit
    once more; when [render()] throws, nothing is committed.  Either way no
    update is requested, no controller is constructed, the associations
    and the registry are kept, and the state stays well formed with every
    slot and controller it had. *)
Theorem update_commits_once n c el w :
  well_formed w ->
  match update (S (S n)) c el w with
  | Ok _ w' =>
      (exists t t', commits w' = commits w ++ [(el, t)] /\
         update (S (S n)) c el w'
         = Ok tt (with_commits (fun cs => cs ++ [(el, t')]) w')) /\
      requests w' = requests w /\ no_instantiation w w' /\
      well_formed w' /\ grows w w'
  | Throw _ w' =>
      commits w' = commits w /\
      requests w' = requests w /\ no_instantiation w w' /\
      well_formed w' /\ grows w w'
  end.
Proof.
  intros Hwf. pose proof (call_render_settles n c w Hwf) as H.
  unfold update at 1. unfold bind.
  destruct (call_render (S (S n)) c w) as [t w1|err w1] eqn:E; simpl in H.
  - destruct (call_render_well_formed _ _ _ _ _ Hwf E) as (_ & _ & _ & [t' Ht']).
    destruct H as (H1 & H2 & (H3 & H4 & H5)).
    unfold lit_render, modify.
    split; [|split; [exact H4|split; [exact H3|split; [exact H1|exact H2]]]].
    exists t, t'. split; [simpl; by rewrite H5|].
    unfold update, bind.
    rewrite (render_result_call n c _ t'); [reflexivity|].
    by rewrite (render_result_ext w1).
  - destruct H as (H1 & H2 & (H3 & H4 & H5)).
    split; [exact H5|]. split; [exact H4|]. split; [exact H3|]. split; [exact H1|exact H2].
Qed.

Lemma update_commits_once_witness :
  well_formed mounted /\
  match update 2 0 (VElem 1) mounted with
  | Ok _ w' =>
      (exists t t', commits w' = commits mounted ++ [(VElem 1, t)] /\
         update 2 0 (VElem 1) w'
         = Ok tt (with_commits (fun cs => cs ++ [(VElem 1, t')]) w')) /\
      requests w' = requests mounted /\ no_instantiation mounted w' /\
      well_formed w' /\ grows mounted w'
  | Throw _ w' =>
      commits w' = commits mounted /\
      requests w' = requests mounted /\ no_instantiation mounted w' /\
      well_formed w' /\ grows mounted w'
  end.
Proof.
  assert (H : well_formed mounted) by (apply well_formedb_sound; vm_compute; reflexivity).
  split; [exact H|]. exact (update_commits_once 0 0 (VElem 1) mounted H).
Defined.







(** A controller whose class has its own [update]: the pass has rendered
    it once, and a host update commits nothing more. *)
Example overridden_update_commits_nothing :
  holds_data 0 "update" (VFun (Bound (UserFn "update" []) 0)) silent_mounted /\
  commits silent_mounted = [(VElem 1, [VStr "silent"])] /\
  commits (final (hostUpdate 3 0 silent_mounted)) = commits silent_mounted.
Proof.
  split; [eexists; split; vm_compute; reflexivity|].
  split; vm_compute; reflexivity.
Qed.

(** ** The association of elements with controllers *)

Lemma mount_sound n this e w :
  associations_sound w -> associations_sound (final (mount (S n) this e w)).
Proof.
  intros [Hex Hinj]. destruct (mountable w e) eqn:Hm.
  2:{ by rewrite (not_mountable_skipped _ _ _ _ Hm). }
  destruct (mountable_registered _ _ Hm) as (name & C & Hh & Hl & Hn & HC).
  destruct (liteElementsInstancesMap w !! el_id e) as [r|] eqn:Hi.
  - destruct (mount_existing n this e name C w r Hh Hl Hn HC Hi) as (Hd & _ & Hi' & _).
    split.
    + intros id r'. rewrite Hi', Hd. apply Hex.
    + intros id1 id2 r'. rewrite Hi'. apply Hinj.
  - pose proof (mount_fresh_any n this e name C w Hh Hl Hn HC Hi) as Hf.
    cbv zeta in Hf.
    set (r := fresh (dom (objects w))) in *.
    assert (Hfr : r ∉ dom (objects w)) by apply is_fresh.
    assert (Hany : exists f,
              inside (with_instances f (allocated C r this (el_id e) w))
                     (final (mount (S n) this e w)) /\
              (f = (fun m => m) \/ f = <[el_id e := r]>)).
    { destruct (new (S n) C this (el_id e) w) as [r' w1|err wt].
      - destruct Hf as [_ Hin]. eexists. split; [exact Hin|by right].
      - destruct Hf as [Em Hin]. rewrite Em. eexists. split; [exact Hin|by left]. }
    destruct Hany as (f & Hin & Hf').
    destruct (allocated_inside _ _ _ _ _ _ _ Hfr Hin) as (Hd & _ & _ & _ & _ & Hi' & _).
    destruct Hf' as [->| ->].
    + split.
      * intros id r'. rewrite Hi', Hd. intros Hr. apply elem_of_union_r. by eapply Hex.
      * intros id1 id2 r'. rewrite Hi'. apply Hinj.
    + split.
      * intros id r'. rewrite Hi', Hd.
        destruct (decide (id = el_id e)) as [->|Hne].
        -- rewrite lookup_insert_eq. intros [= <-]. apply elem_of_union_l.
           by apply elem_of_singleton.
        -- rewrite lookup_insert_ne by done. intros Hr. apply elem_of_union_r.
           by eapply Hex.
      * intros id1 id2 r'. rewrite !Hi'.
        destruct (decide (id1 = el_id e)) as [->|Hne1];
          destruct (decide (id2 = el_id e)) as [->|Hne2]; [done| | |].
        -- rewrite lookup_insert_eq, lookup_insert_ne by done. intros [= <-] Hr.
           destruct Hfr. by eapply Hex.
        -- rewrite lookup_insert_eq, lookup_insert_ne by done. intros Hr [= <-].
           destruct Hfr. by eapply Hex.
        -- rewrite !lookup_insert_ne by done. apply Hinj.
Qed.

(** X14: the discovery pass keeps the association sound.  If every
    associated controller exists and no two elements share a controller
    before [updateContent], the same holds after it, whether the pass
    returns or a [render] throws in the middle of it. *)
Theorem pass_keeps_associations_sound n this shadow w :
  associations_sound w ->
  associations_sound (final (updateContent (S n) this shadow w)).
Proof.
  intros H. unfold updateContent. destruct shadow as [l|]; [|exact H].
  destruct (negb (length l =? 0)%nat); [|exact H].
  revert w H. induction l as [|e l IH]; intros w H; [exact H|]. simpl.
  apply final_bind; [by apply mount_sound|].
  intros u w1 E. apply IH. change w1 with (final (Ok u w1)). rewrite <- E.
  by apply mount_sound.
Qed.

Lemma pass_keeps_associations_sound_witness :
  associations_sound registered /\
  associations_sound
    (final (updateContent 3 7 (Some [marker 1 "counter"; marker 2 "counter"]) registered)).
Proof.
  assert (H : associations_sound registered).
  { assert (E : liteElementsInstancesMap registered = ∅) by (vm_compute; reflexivity).
    split.
    - intros id r. rewrite E, lookup_empty. discriminate.
    - intros id1 id2 r. rewrite E, lookup_empty. discriminate. }
  split; [exact H|].
  exact (pass_keeps_associations_sound 2 7
           (Some [marker 1 "counter"; marker 2 "counter"]) registered H).
Defined.

(** X15: registering another class under a name does not replace the
    controllers already mounted for it.  After [lite] has put [Cnew] under
    [name], a discovery step for an element that already has a controller
    of class [Cold] constructs nothing: the element keeps that controller,
    which is still an instance of [Cold], and it is the one rendered. *)
Theorem reregistration_keeps_controllers n this e name elements Cnew Cold r w :
  el_html e = true -> el_lite e = Some name -> name <> "" ->
  liteElementsInstancesMap w !! el_id e = Some r ->
  instance_of r Cold w ->
  assoc name (rev elements) = Some Cnew ->
  exists w1,
    lite elements w = Ok tt w1 /\
    liteElementsMap w1 !! name = Some Cnew /\
    let w2 := final (mount (S n) this e w1) in
    mount (S n) this e w1 = LiteElementHost_new (S n) r (el_id e) w1 /\
    no_instantiation w1 w2 /\
    liteElementsInstancesMap w2 !! el_id e = Some r /\
    instance_of r Cold w2.
Proof.
  intros Hh Hl Hn Hi Ho Hlast. eexists. split; [apply lite_spec|].
  set (w1 := with_registry _ w).
  assert (HC : liteElementsMap w1 !! name = Some Cnew).
  { unfold w1. simpl. by rewrite registry_last_wins, Hlast. }
  assert (Hi1 : liteElementsInstancesMap w1 !! el_id e = Some r) by exact Hi.
  assert (Ho1 : instance_of r Cold w1) by exact Ho.
  assert (Heq : mount (S n) this e w1 = LiteElementHost_new (S n) r (el_id e) w1).
  { rewrite (mount_registered _ _ _ _ _ _ Hh Hl Hn HC).
    unfold bind at 1, instance_for, bind at 1, gets. by rewrite Hi1. }
  split; [exact HC|]. intros w2. split; [exact Heq|].
  pose proof (mount_existing n this e name Cnew w1 r Hh Hl Hn HC Hi1) as Hno.
  fold w2 in Hno. split; [exact Hno|]. split.
  - destruct Hno as (_ & _ & -> & _). exact Hi1.
  - unfold w2. rewrite Heq. by apply render_instance_of.
Qed.

Lemma reregistration_keeps_controllers_witness :
  exists w1,
    lite [("counter", Clock)] mounted = Ok tt w1 /\
    liteElementsMap w1 !! "counter" = Some Clock /\
    let w2 := final (mount 3 7 (marker 1 "counter") w1) in
    mount 3 7 (marker 1 "counter") w1 = LiteElementHost_new 3 0 1 w1 /\
    no_instantiation w1 w2 /\
    liteElementsInstancesMap w2 !! 1 = Some 0 /\
    instance_of 0 Counter w2.
Proof.
  apply (reregistration_keeps_controllers 2 7 (marker 1 "counter") "counter"
           [("counter", Clock)] Clock Counter 0 mounted); try reflexivity.
  - discriminate.
  - eexists. split; vm_compute; reflexivity.
Defined.



(** The same class on a host that does not call back: the constructor
    returns, the commit step throws, and the element keeps its controller. *)
Example throwing_render_keeps_association :
  mount 2 7 (marker 1 "broken") broken_registered = Throw TypeError broken_mounted /\
  liteElementsInstancesMap broken_mounted !! 1 = Some 0 /\
  controllers (final (mount 2 7 (marker 1 "broken") broken_mounted)) = [(7, 0)].
Proof. repeat split; vm_compute; reflexivity. Qed.

(** ** What a write touches *)

(** X17: a write to an installed reactive field is local.  It returns, and
    the only things it changes are the backing key of the field on its own
    controller, the field's own cell and the request log: every other
    controller, every other property of the controller, every other cell,
    the commits, the registry and the associations are as before. *)
Theorem write_is_local n w c F h v :
  installed w c F h ->
  untouched w c F \/ (exists l v0, slot w c F l h v0) ->
  exists w1,
    js_set (S (S n)) c F v w = Ok tt w1 /\
    (forall c', c' <> c -> objects w1 !! c' = objects w !! c') /\
    (exists o o1, objects w !! c = Some o /\ objects w1 !! c = Some o1 /\
       o_class o1 = o_class o /\
       forall k, k <> internalKey F -> o_props o1 !! k = o_props o !! k) /\
    (forall l c0, cells w !! l = Some c0 -> (forall v0, ~ slot w c F l h v0) ->
       cells w1 !! l = Some c0) /\
    controllers w1 = controllers w /\ commits w1 = commits w /\
    liteElementsMap w1 = liteElementsMap w /\
    liteElementsInstancesMap w1 = liteElementsInstancesMap w.
Proof.
  intros (o & orig & Ho & HF & Hh) [(o' & Ho' & Habs)|(l & v0 & (o' & Ho' & Hik & Hl))];
    rewrite Ho in Ho'; injection Ho' as <-.
  - eexists. split; [by eapply setter_creates|].
    split; [intros c' Hne; rewrite define_objects_ne by done; reflexivity|].
    split.
    { exists o. eexists. split; [exact Ho|]. split; [apply define_objects; exact Ho|].
      split; [done|]. intros k Hk. simpl. by rewrite lookup_insert_ne. }
    split; [|done].
    intros l c0 Hl _. simpl. rewrite lookup_insert_ne; [done|].
    intros Heq. apply elem_of_dom_2 in Hl. rewrite <- Heq in Hl. by apply is_fresh in Hl.
  - eexists. split; [by eapply setter_updates|].
    split; [done|]. split; [by exists o, o|]. split; [|done].
    intros l' c0 Hl' Hns. simpl. rewrite lookup_insert_ne; [done|].
    intros <-. apply (Hns v0). by exists o.
Qed.

Lemma write_is_local_witness :
  exists w1,
    js_set 2 0 "count" (VNum 41) rendered = Ok tt w1 /\
    (forall c', c' <> 0 -> objects w1 !! c' = objects rendered !! c') /\
    (exists o o1, objects rendered !! 0 = Some o /\ objects w1 !! 0 = Some o1 /\
       o_class o1 = o_class o /\
       forall k, k <> internalKey "count" -> o_props o1 !! k = o_props o !! k) /\
    (forall l c0, cells rendered !! l = Some c0 ->
       (forall v0, ~ slot rendered 0 "count" l 7 v0) ->
       cells w1 !! l = Some c0) /\
    controllers w1 = controllers rendered /\ commits w1 = commits rendered /\
    liteElementsMap w1 = liteElementsMap rendered /\
    liteElementsInstancesMap w1 = liteElementsInstancesMap rendered.
Proof.
  apply (write_is_local 0 rendered 0 "count" 7 (VNum 41)).
  - eexists. eexists. repeat split; vm_compute; reflexivity.
  - right. eexists. eexists. eexists. repeat split; vm_compute; reflexivity.
Defined.

(** ** The pass does not install reactive fields *)

Lemma plain_get n r k w : no_accessors w -> final (js_get (S n) r k w) = w.
Proof.
  intros H. unfold js_get. destruct (objects w !! r) as [o|] eqn:Ho.
  - by rewrite (read_plain _ _ _ _ _ Ho (H _ _ Ho k)).
  - by rewrite js_access_S, Ho.
Qed.

Lemma plain_eval n r body w :
  no_accessors w -> final (eval_template (S n) r body w) = w.
Proof.
  intros H. induction body as [|[s|k] body IH]; simpl; [done| |].
  - unfold bind. destruct (eval_template (S n) r body w); simpl in *; by subst.
  - unfold bind. pose proof (plain_get n r k w H) as Hg.
    destruct (js_get (S n) r k w); simpl in Hg; subst; [|done].
    destruct (eval_template (S n) r body w); simpl in *; by subst.
Qed.

Lemma plain_call_method n f w : forall r,
  no_accessors w -> final (call_method (S n) f r w) = w.
Proof.
  induction f as [| | |g IH r']; intros r H; simpl; try done.
  - by apply plain_eval.
  - by apply IH.
Qed.

Lemma plain_render n r w : no_accessors w -> final (call_render (S n) r w) = w.
Proof.
  intros H. unfold call_render, bind. pose proof (plain_get n r "render" w H) as Hg.
  destruct (js_get (S n) r "render" w) as [f w1|]; simpl in Hg; subst; [|done].
  destruct f; try done. by apply plain_call_method.
Qed.

Lemma plain_host_new n r h w :
  no_accessors w ->
  let w' := final (LiteElementHost_new (S n) r h w) in
  objects w' = objects w /\ cells w' = cells w /\ requests w' = requests w.
Proof.
  intros H. unfold LiteElementHost_new, bind. pose proof (plain_render n r w H) as Hr.
  destruct (call_render (S n) r w) as [t w1|]; simpl in Hr; subst; by simpl.
Qed.

Lemma plain_mount n this e w :
  this ∉ connected w ->
  no_accessors w ->
  let w' := final (mount (S n) this e w) in
  no_accessors w' /\ cells w' = cells w /\ requests w' = requests w.
Proof.
  intros Hconn H. cbv zeta. destruct (mountable w e) eqn:Hm.
  2:{ by rewrite (not_mountable_skipped _ _ _ _ Hm). }
  destruct (mountable_registered _ _ Hm) as (name & C & Hh & Hl & Hn & HC).
  destruct (liteElementsInstancesMap w !! el_id e) as [r|] eqn:Hi.
  - assert (Em : mount (S n) this e w = LiteElementHost_new (S n) r (el_id e) w).
    { rewrite (mount_registered _ _ _ _ _ _ Hh Hl Hn HC).
      unfold bind at 1, instance_for, bind at 1, gets. by rewrite Hi. }
    rewrite Em. destruct (plain_host_new n r (el_id e) w H) as (Ho & Hc & Hr).
    split; [|by split]. intros r0 o0. rewrite Ho. apply H.
  - set (r := fresh (dom (objects w))).
    set (w1 := with_instances <[el_id e := r]>
                 (set_obj r (constructed C r this (el_id e))
                    (with_controllers (fun cs => cs ++ [(this, r)]) w))).
    assert (Em : mount (S n) this e w = LiteElementHost_new (S n) r (el_id e) w1).
    { rewrite (mount_registered _ _ _ _ _ _ Hh Hl Hn HC).
      unfold bind at 1, instance_for, bind at 1, gets. rewrite Hi.
      unfold bind at 1. rewrite new_spec by done. reflexivity. }
    rewrite Em.
    assert (H1 : no_accessors w1).
    { intros r0 o0. unfold w1, set_obj. simpl.
      destruct (decide (r = r0)) as [<-|Hne].
      - rewrite lookup_insert_eq. intros [= <-]. apply constructed_plain.
      - rewrite lookup_insert_ne by done. apply H. }
    destruct (plain_host_new n r (el_id e) w1 H1) as (Ho & Hc & Hr).
    split; [|by split]. intros r0 o0. rewrite Ho. apply H1.
Qed.

(** X18: the discovery pass of a host that does not call back from
    [addController] constructs and renders controllers but never installs
    their reactive fields.  From a state in which no controller has an
    accessor property, the pass (returning or throwing) leaves a state in
    which none has one either, the new controllers included; it creates no
    [ReactiveProperty] and requests no update.  The fields become reactive
    only when the host calls a hook of the controller. *)
Theorem pass_installs_nothing n this shadow w :
  this ∉ connected w ->
  no_accessors w ->
  let w' := final (updateContent (S n) this shadow w) in
  no_accessors w' /\ cells w' = cells w /\ requests w' = requests w.
Proof.
  intros Hconn H. unfold updateContent. destruct shadow as [l|]; [|by split].
  destruct (negb (length l =? 0)%nat); [|by split].
  revert w Hconn H. induction l as [|e l IH]; intros w Hconn H; [by split|]. simpl.
  unfold bind. pose proof (plain_mount n this e w Hconn H) as Hm.
  destruct (mount_keeps n this e w) as [(_ & _ & _ & _ & Hk) _].
  destruct (mount (S n) this e w) as [u w1|err w1]; simpl in Hm, Hk; [|exact Hm].
  destruct Hm as (H1 & Hc & Hr).
  assert (Hconn1 : this ∉ connected w1) by (by rewrite Hk).
  destruct (IH w1 Hconn1 H1) as (H2 & Hc' & Hr').
  split; [exact H2|]. split; congruence.
Qed.

Lemma pass_installs_nothing_witness :
  (7 ∉ connected registered) /\
  no_accessors registered /\
  let w' := final (updateContent 3 7 (Some [marker 1 "counter"]) registered) in
  no_accessors w' /\ cells w' = cells registered /\ requests w' = requests registered.
Proof.
  assert (Hconn : 7 ∉ connected registered).
  { assert (Ec : connected registered = ∅) by (vm_compute; reflexivity).
    rewrite Ec. apply not_elem_of_empty. }
  assert (H : no_accessors registered).
  { assert (E : objects registered = ∅) by (vm_compute; reflexivity).
    intros r o. rewrite E, lookup_empty. discriminate. }
  split; [exact Hconn|]. split; [exact H|].
  exact (pass_installs_nothing 2 7 (Some [marker 1 "counter"]) registered Hconn H).
Defined.

(** ** Installing a field twice *)

(** X19: [reactive] run again on a field that is already installed keeps
    what the field reads as.  The second installation reads the field
    through the accessor it is about to replace, which creates the backing
    slot when there was none; it returns, requests no update, and the field
    is again an installed field whose slot exists and reads as before. *)
Theorem reinstallation_keeps_value n w c F h :
  installed w c F h ->
  untouched w c F \/ (exists l v0, slot w c F l h v0) ->
  exists v w1 w2 l,
    js_get (S (S n)) c F w = Ok v w1 /\
    reactive (S (S n)) c F w = Ok tt w2 /\
    installed w2 c F h /\ slot w2 c F l h v /\
    js_get (S (S n)) c F w2 = Ok v w2 /\
    requests w2 = requests w.
Proof.
  intros Hi Hs.
  assert (Hread : exists v w1 l,
             js_get (S (S n)) c F w = Ok v w1 /\ installed w1 c F h /\
             slot w1 c F l h v /\ requests w1 = requests w).
  { destruct Hs as [Hu|(l & v0 & Hs)].
    - destruct Hi as (o & orig & Ho & HF & Hh). destruct Hu as (o' & Ho' & Habs).
      rewrite Ho in Ho'. injection Ho' as <-.
      assert (internalKey F <> F)
        by (intros E; destruct Habs as [Ha _]; rewrite E in Ha; congruence).
      assert (internalKey F <> "host")
        by (intros E; destruct Habs as [Ha _]; rewrite E in Ha; congruence).
      exists orig. eexists. exists (fresh (dom (cells w))).
      split; [by eapply getter_creates|]. split; [|split; [|done]].
      + eexists. exists orig. split; [apply define_objects; exact Ho|].
        simpl. rewrite !lookup_insert_ne by done. by split.
      + eexists. split; [apply define_objects; exact Ho|]. simpl.
        rewrite !lookup_insert_eq. by split.
    - exists v0, w, l. split; [by eapply read_with_slot|]. by split. }
  destruct Hread as (v & w1 & l & E & (o & orig & Ho & HF & Hh) & (o' & Ho' & Hik & Hl) & Hr).
  rewrite Ho in Ho'. injection Ho' as <-.
  assert (HneF : F <> internalKey F) by (intros E'; rewrite <- E' in Hik; congruence).
  assert (Hneh : F <> "host") by (intros E'; rewrite E' in HF; congruence).
  exists v. exists w1. eexists. exists l. split; [exact E|].
  split; [unfold reactive, bind; rewrite E; reflexivity|].
  split; [|split; [|split; [|exact Hr]]].
  - eexists. exists v. split; [by apply define_objects|].
    simpl. rewrite lookup_insert_eq, lookup_insert_ne by done. by split.
  - eexists. split; [by apply define_objects|]. simpl.
    rewrite lookup_insert_ne by done. by split.
  - eapply (getter_reads _ _ _ _ _ _ _ _ {| rp_host := VHost h; rp_value := v |}).
    + by apply define_objects.
    + simpl. apply lookup_insert_eq.
    + simpl. by rewrite lookup_insert_ne.
    + exact Hl.
Qed.

Lemma reinstallation_keeps_value_witness :
  exists v w1 w2 l,
    js_get 2 0 "count" initialised = Ok v w1 /\
    reactive 2 0 "count" initialised = Ok tt w2 /\
    installed w2 0 "count" 7 /\ slot w2 0 "count" l 7 v /\
    js_get 2 0 "count" w2 = Ok v w2 /\
    requests w2 = requests initialised.
Proof.
  apply (reinstallation_keeps_value 0 initialised 0 "count" 7).
  - eexists. eexists. repeat split; vm_compute; reflexivity.
  - left. eexists. repeat split; vm_compute; reflexivity.
Defined.
